(** * douyin-mcp-server: a shallow embedding of [server.py]

    The development follows [src/douyin_mcp_server/server.py]:

    - Python text ([str]) is a list of Unicode code points, with the string
      methods and the two regular expressions the source uses written out;
    - the values [json.loads] produces are an inductive type, and the
      dynamically typed accesses of the source ([v[k]], [k in v], [v.get],
      [v.strip()], [v.replace]) fail the way Python's do;
    - HTTP, the file system and the host context are effects: a state and
      exception monad threads the request counter, the event trace and the
      files, and the responses come from a [World] oracle;
    - what belongs to libraries ([json.loads], [json.dumps], [int], the
      wording of interpreter errors) is a [Runtime] parameter. *)

From stdpp Require Import base option list strings gmap.
From Stdlib Require Import ZArith NArith Ascii Lia Sorted.

Local Open Scope N_scope.

(** ** Python text *)

Module PyStr.

(** A character is its code point, a [str] a list of them. *)
Abbreviation char := N (only parsing).
Abbreviation str := (list N) (only parsing).

Definition ord (a : ascii) : char := N_of_ascii a.
Arguments ord a%_char.

(** Literals of the source are written as UTF-8 Rocq strings; [lit] decodes
    them into code points. [need] counts the continuation bytes still
    expected, [acc] holds the bits read so far. *)
Fixpoint utf8_go (need : nat) (acc : N) (bs : list N) : str :=
  match bs with
  | [] => []
  | b :: bs' =>
    match need with
    | O =>
      if b <? 128 then b :: utf8_go 0 0 bs'
      else if b <? 224 then utf8_go 1 (b mod 32) bs'
      else if b <? 240 then utf8_go 2 (b mod 16) bs'
      else utf8_go 3 (b mod 8) bs'
    | S O => (acc * 64 + b mod 64) :: utf8_go 0 0 bs'
    | S k => utf8_go k (acc * 64 + b mod 64) bs'
    end
  end.

Fixpoint bytes_of_string (s : string) : list N :=
  match s with
  | EmptyString => []
  | String a s' => N_of_ascii a :: bytes_of_string s'
  end.

Definition lit (s : string) : str := utf8_go 0 0 (bytes_of_string s).

Definition char_eqb (a b : char) : bool := a =? b.

Fixpoint str_eqb (a b : str) : bool :=
  match a, b with
  | [], [] => true
  | x :: a', y :: b' => char_eqb x y && str_eqb a' b'
  | _, _ => false
  end.

(** [s.startswith(p)] *)
Fixpoint str_startswith (p s : str) : bool :=
  match p, s with
  | [], _ => true
  | x :: p', y :: s' => char_eqb x y && str_startswith p' s'
  | _ :: _, [] => false
  end.

(** [sub in s] on two strings: [sub] occurs somewhere in [s]. *)
Fixpoint str_contains (sub s : str) : bool :=
  str_startswith sub s ||
  match s with
  | [] => false
  | _ :: s' => str_contains sub s'
  end.

(** [str.isspace] on one character, the table of CPython's
    [_PyUnicode_IsWhitespace]; the same table decides [\s] in a [str]
    pattern of [re]. *)
Definition py_isspace (c : char) : bool :=
  ((9 <=? c) && (c <=? 13)) || ((28 <=? c) && (c <=? 32)) ||
  (c =? 133) || (c =? 160) || (c =? 5760) ||
  ((8192 <=? c) && (c <=? 8202)) || (c =? 8232) || (c =? 8233) ||
  (c =? 8239) || (c =? 8287) || (c =? 12288).

Fixpoint lstrip_by (f : char -> bool) (s : str) : str :=
  match s with
  | [] => []
  | c :: s' => if f c then lstrip_by f s' else s
  end.

Definition rstrip_by (f : char -> bool) (s : str) : str :=
  rev (lstrip_by f (rev s)).

Definition strip_by (f : char -> bool) (s : str) : str :=
  rstrip_by f (lstrip_by f s).

(** [s.strip()] *)
Definition str_strip (s : str) : str := strip_by py_isspace s.

(** [s.strip(chars)] *)
Definition str_strip_chars (chars : str) (s : str) : str :=
  strip_by (fun c => existsb (char_eqb c) chars) s.

(** [s.split(sep)] for a separator of one character; the result is never
    empty, so [[0]] and [[-1]] on it cannot fail. *)
Fixpoint str_split (sep : char) (s : str) : list str :=
  match s with
  | [] => [[]]
  | c :: s' =>
    if char_eqb c sep then [] :: str_split sep s'
    else match str_split sep s' with
         | p :: ps => (c :: p) :: ps
         | [] => [[c]]
         end
  end.

(** [l[0]] and [l[-1]] of a list of strings known to be non-empty. *)
Definition str_first (l : list str) : str := hd [] l.
Definition str_last (l : list str) : str := List.last l [].

(** [s.replace(old, new)]: occurrences are taken from the left and do not
    overlap. [skip] counts the characters of an occurrence already replaced
    that are still to be passed over. With an empty [old] Python puts [new]
    before every character and at the end. *)
Fixpoint replace_go (old new : str) (skip : nat) (s : str) : str :=
  match s with
  | [] => []
  | c :: s' =>
    match skip with
    | S k => replace_go old new k s'
    | O =>
      if str_startswith old s
      then new ++ replace_go old new (length old - 1) s'
      else c :: replace_go old new 0 s'
    end
  end.

Definition str_replace (old new : str) (s : str) : str :=
  match old with
  | [] => new ++ flat_map (fun c => c :: new) s
  | _ :: _ => replace_go old new 0 s
  end.

End PyStr.
Export PyStr.

(** ** The regular expressions of the source *)

Module Regex.

Definition in_range (lo hi : ascii) (c : char) : bool :=
  (ord lo <=? c) && (c <=? ord hi).
Arguments in_range (lo hi)%_char c.

Definition one_of (cs : string) (c : char) : bool :=
  existsb (char_eqb c) (lit cs).

Definition is_hex (c : char) : bool :=
  in_range "0" "9" c || in_range "a" "f" c || in_range "A" "F" c.

(** The first four alternatives of the group of the link pattern,
    [[a-zA-Z]|[0-9]|[$-_@.&+]|[!*(),]], each one character wide. Inside the
    third class [$-_] is a range, from [$] to [_]. *)
Definition url_char (c : char) : bool :=
  (in_range "a" "z" c || in_range "A" "Z" c) ||
  in_range "0" "9" c ||
  (in_range "$" "_" c || one_of "@.&+" c) ||
  one_of "!*()," c.

(** One greedy iteration of the group at the head of [s]: the alternatives
    in their order, the last one being [%[0-9a-fA-F][0-9a-fA-F]]; the result
    is the number of characters consumed. The percent sign lies in the range
    [$-_], so the third alternative takes it before the last one is tried. *)
Definition url_group (s : str) : option nat :=
  match s with
  | [] => None
  | c :: s' =>
    if url_char c then Some 1%nat
    else if char_eqb c (ord "%") then
      match s' with
      | h1 :: h2 :: _ => if is_hex h1 && is_hex h2 then Some 3%nat else None
      | _ => None
      end
    else None
  end.

(** [(?:...)+] once the first iteration is through: nothing follows the
    group in the pattern, so the greedy repetition never gives a character
    back and stops at the first position where no alternative matches.
    [skip] passes over the characters of an iteration three wide. *)
Fixpoint url_body (skip : nat) (s : str) : str :=
  match s with
  | [] => []
  | c :: s' =>
    match skip with
    | S k => c :: url_body k s'
    | O =>
      match url_group s with
      | Some n => c :: url_body (n - 1) s'
      | None => []
      end
    end
  end.

(** A match of [https?://(?:...)+] anchored at the head of [s]. *)
Definition url_match_at (s : str) : option str :=
  let http := lit "http" in
  if str_startswith http s then
    let r := drop (length http) s in
    let '(scheme, r) :=
      if str_startswith (lit "s") r then (http ++ lit "s", drop 1 r)
      else (http, r) in
    if str_startswith (lit "://") r then
      let body := url_body 0 (drop 3 r) in
      match body with
      | [] => None
      | _ :: _ => Some (scheme ++ lit "://" ++ body)
      end
    else None
  else None.

(** [re.findall(pattern, s)] for the link pattern: matches from the left,
    the scan resuming where the previous match ended. *)
Fixpoint findall_go (skip : nat) (s : str) : list str :=
  match s with
  | [] => []
  | _ :: s' =>
    match skip with
    | S k => findall_go k s'
    | O =>
      match url_match_at s with
      | Some m => m :: findall_go (length m - 1) s'
      | None => findall_go 0 s'
      end
    end
  end.

Definition findall_url (s : str) : list str := findall_go 0 s.

(** The prefix of [s] before the first occurrence of [stop], if there is
    one: what a lazy [.*?] followed by a literal captures under DOTALL. *)
Fixpoint lazy_until (stop : str) (s : str) : option str :=
  if str_startswith stop s then Some []
  else match s with
       | [] => None
       | c :: s' => option_map (cons c) (lazy_until stop s')
       end.

(** [window\._ROUTER_DATA\s*=\s*(.*?)</script>] anchored at the head of
    [s]; the result is group 1. Both [\s*] are greedy, and giving back
    white space cannot help: neither [=] nor [<] is white space. *)
Definition router_match_at (s : str) : option str :=
  let marker := lit "window._ROUTER_DATA" in
  if str_startswith marker s then
    match lstrip_by py_isspace (drop (length marker) s) with
    | c :: r =>
      if char_eqb c (ord "=")
      then lazy_until (lit "</script>") (lstrip_by py_isspace r)
      else None
    | [] => None
    end
  else None.

(** [pattern.search(s)] followed by [.group(1)]: the leftmost position
    where the pattern matches. *)
Fixpoint router_search (s : str) : option str :=
  match router_match_at s with
  | Some g => Some g
  | None =>
    match s with
    | [] => None
    | _ :: s' => router_search s'
    end
  end.

(** The class of the file-name pattern: backslash (92), double quote (34)
    and the seven characters [/ : * ? < > |]. *)
Definition illegal_char (c : char) : bool :=
  char_eqb c 92 || char_eqb c 34 || one_of "/:*?<>|" c.

(** [re.sub] with that class and the replacement ['_']: every character of
    the class becomes an underscore, the others stay. *)
Definition sub_illegal (s : str) : str :=
  map (fun c => if illegal_char c then ord "_" else c) s.

End Regex.
Export Regex.

(** ** Python values, exceptions and dynamically typed accesses *)

Module Py.

Definition bytes := list Byte.byte.

(** The values [json.loads] builds, and the path objects the finalizer
    expects. A [dict] keeps its insertion order; its keys are strings. *)
#[local] Set Warnings "-register-all".
Inductive pyval :=
| VNone
| VBool (b : bool)
| VInt (z : Z)
| VFloat (bits : Z)
| VStr (s : str)
| VList (items : list pyval)
| VDict (fields : list (str * pyval))
| VPath (p : str).

(** Errors the interpreter raises on its own. *)
Inductive fault :=
| KeyMissing (key : pyval)                (* KeyError: [d[key]] *)
| OutOfRange (v : pyval)                  (* IndexError: [v[0]] *)
| BadSubscript (v key : pyval)            (* TypeError: [v[key]] *)
| BadContainer (v : pyval)                (* TypeError: [key in v] *)
| BadPatternArg (v : pyval)               (* TypeError: [re.findall(p, v)] *)
| NoAttribute (v : pyval) (name : string) (* AttributeError: [v.name] *)
| NoField (name : string).                (* AttributeError: [self.name] *)

(** Exception classes; all of them derive from [Exception], so the clause
    [except Exception] of the source catches every [exn]. [LibraryError]
    stands for the classes of [requests], [json] and the operating system. *)
Inductive exn_class :=
| ValueError | Exception_ | KeyError | IndexError | TypeError
| AttributeError | LibraryError (name : str).

Inductive exn :=
| Raised (cls : exn_class) (msg : str)
| Faulted (f : fault).

Definition fault_class (f : fault) : exn_class :=
  match f with
  | KeyMissing _ => KeyError
  | OutOfRange _ => IndexError
  | BadSubscript _ _ | BadContainer _ | BadPatternArg _ => TypeError
  | NoAttribute _ _ | NoField _ => AttributeError
  end.

Definition class_of (e : exn) : exn_class :=
  match e with
  | Raised cls _ => cls
  | Faulted f => fault_class f
  end.

Inductive result (A : Type) :=
| Ok (a : A)
| Raise (e : exn).
Arguments Ok {A} a.
Arguments Raise {A} e.

#[global] Instance result_ret : MRet result := fun A a => Ok a.
#[global] Instance result_bind : MBind result := fun A B f r =>
  match r with
  | Ok a => f a
  | Raise e => Raise e
  end.

(** What the libraries do, left open: [json.loads], [json.dumps] (with
    [ensure_ascii=False, indent=2]), [int] on a header, the text an f-string
    gives a value that is not a string, and [str(e)] of an interpreter
    error. *)
Record Runtime := {
  json_loads : str -> result pyval;
  json_dumps : pyval -> str;
  py_int : str -> result Z;
  py_format : pyval -> str;
  fault_str : fault -> str;
}.

(** [str(e)] *)
Definition exn_str (rt : Runtime) (e : exn) : str :=
  match e with
  | Raised _ msg => msg
  | Faulted f => fault_str rt f
  end.

Fixpoint dict_get (k : str) (fields : list (str * pyval)) : option pyval :=
  match fields with
  | [] => None
  | (k', v) :: rest => if str_eqb k' k then Some v else dict_get k rest
  end.

(** [v[k]] for a string [k] *)
Definition getitem (v : pyval) (k : str) : result pyval :=
  match v with
  | VDict fields =>
    match dict_get k fields with
    | Some x => Ok x
    | None => Raise (Faulted (KeyMissing (VStr k)))
    end
  | _ => Raise (Faulted (BadSubscript v (VStr k)))
  end.

(** [v[0]]: the first item of a list, the first character of a string; a
    dictionary has no key [0], its keys being strings. *)
Definition getitem0 (v : pyval) : result pyval :=
  match v with
  | VList (x :: _) => Ok x
  | VStr (c :: _) => Ok (VStr [c])
  | VList [] | VStr [] => Raise (Faulted (OutOfRange v))
  | VDict _ => Raise (Faulted (KeyMissing (VInt 0)))
  | _ => Raise (Faulted (BadSubscript v (VInt 0)))
  end.

(** [k in v] for a string [k]: a key of a dictionary, an item of a list, a
    substring of a string. *)
Definition py_in (k : str) (v : pyval) : result bool :=
  match v with
  | VDict fields =>
    Ok (match dict_get k fields with Some _ => true | None => false end)
  | VList items =>
    Ok (existsb (fun x => match x with VStr s => str_eqb s k | _ => false end)
          items)
  | VStr s => Ok (str_contains k s)
  | _ => Raise (Faulted (BadContainer v))
  end.

(** [v.get(k, default)] *)
Definition py_get (v : pyval) (k : str) (default : pyval) : result pyval :=
  match v with
  | VDict fields => Ok (match dict_get k fields with Some x => x | None => default end)
  | _ => Raise (Faulted (NoAttribute v "get"))
  end.

(** [v.strip()] *)
Definition py_strip (v : pyval) : result str :=
  match v with
  | VStr s => Ok (str_strip s)
  | _ => Raise (Faulted (NoAttribute v "strip"))
  end.

(** [v.replace(old, new)] *)
Definition py_replace (v : pyval) (old new : str) : result str :=
  match v with
  | VStr s => Ok (str_replace old new s)
  | _ => Raise (Faulted (NoAttribute v "replace"))
  end.

(** The text of a value inside an f-string. *)
Definition format_value (rt : Runtime) (v : pyval) : str :=
  match v with
  | VStr s => s
  | _ => py_format rt v
  end.

End Py.
Export Py.

(** ** Effects: HTTP, files, the host context *)

Module Effects.

(** What [requests.get] hands back. [resp_status_error] is the exception
    [raise_for_status()] raises, if the status is not a success;
    [resp_content_length] is [headers.get('content-length')]; the body comes
    as the chunks [iter_content] yields, and [resp_stream_error] is the
    exception the iteration raises after them, if the transfer breaks. *)
Record Response := {
  resp_url : str;
  resp_text : str;
  resp_status_error : option exn;
  resp_content_length : option str;
  resp_chunks : list bytes;
  resp_stream_error : option exn;
}.

(** The environment: the answer to the [n]-th request of a run, and the
    exception, if any, that [open(path, 'wb')] raises. *)
Record World := {
  http_get : nat -> str -> result Response;
  open_wb : str -> option exn;
}.

(** What a run does to the outside, in order. *)
Inductive event :=
| EvGet (url : str) (stream : bool)
| EvInfo (msg : str)
| EvOpen (path : str)
| EvWrite (path : str) (data : bytes)
| EvProgress (downloaded total : Z)
| EvRmtree (path : str).

(** Requests issued so far, events so far, and the file system: the
    directories that exist and the contents of the files. Paths are
    compared as they are written. *)
Record state := {
  st_requests : nat;
  st_trace : list event;
  st_dirs : gset str;
  st_files : gmap str bytes;
}.

Definition M (A : Type) : Type := state -> result A * state.

#[global] Instance M_ret : MRet M := fun A a st => (Ok a, st).
#[global] Instance M_bind : MBind M := fun A B f m st =>
  match m st with
  | (Ok a, st') => f a st'
  | (Raise e, st') => (Raise e, st')
  end.

Definition raise {A} (e : exn) : M A := fun st => (Raise e, st).

Definition lift {A} (r : result A) : M A := fun st => (r, st).

(** [try: body except Exception as e: handler e] *)
Definition try_except {A} (body : M A) (handler : exn -> M A) : M A :=
  fun st =>
    match body st with
    | (Ok a, st') => (Ok a, st')
    | (Raise e, st') => handler e st'
    end.

Definition emit (ev : event) : M unit := fun st =>
  (Ok tt, {| st_requests := st_requests st;
             st_trace := st_trace st ++ [ev];
             st_dirs := st_dirs st;
             st_files := st_files st |}).

(** [requests.get(url, headers=HEADERS, stream=...)] *)
Definition requests_get (w : World) (url : str) (stream : bool) : M Response :=
  fun st =>
    (http_get w (st_requests st) url,
     {| st_requests := S (st_requests st);
        st_trace := st_trace st ++ [EvGet url stream];
        st_dirs := st_dirs st;
        st_files := st_files st |}).

(** [response.raise_for_status()] *)
Definition raise_for_status (r : Response) : M unit :=
  match resp_status_error r with
  | Some e => raise e
  | None => mret tt
  end.

(** [open(path, 'wb')]: the file is created or emptied. *)
Definition open_file (w : World) (path : str) : M unit :=
  match open_wb w path with
  | Some e => raise e
  | None => fun st =>
    (Ok tt, {| st_requests := st_requests st;
               st_trace := st_trace st ++ [EvOpen path];
               st_dirs := st_dirs st;
               st_files := <[path := []]> (st_files st) |})
  end.

(** [f.write(chunk)] on the file opened at [path] *)
Definition write_file (path : str) (chunk : bytes) : M unit := fun st =>
  (Ok tt, {| st_requests := st_requests st;
             st_trace := st_trace st ++ [EvWrite path chunk];
             st_dirs := st_dirs st;
             st_files :=
               <[path := default [] (st_files st !! path) ++ chunk]>
                 (st_files st) |}).

(** [q] is [p] or lies below it. *)
Definition under (p q : str) : bool :=
  str_eqb p q || str_startswith (p ++ lit "/") q.

(** [p.exists()] *)
Definition path_exists (p : str) : M bool := fun st =>
  (Ok (bool_decide (p ∈ st_dirs st) || bool_decide (is_Some (st_files st !! p))),
   st).

(** [shutil.rmtree(p, ignore_errors=True)]: a directory goes with all that
    is below it; anything else is an error, which is ignored. *)
Definition rmtree (p : str) : M unit := fun st =>
  (Ok tt,
   {| st_requests := st_requests st;
      st_trace := st_trace st ++ [EvRmtree p];
      st_dirs :=
        if bool_decide (p ∈ st_dirs st)
        then filter (fun q => under p q = false) (st_dirs st)
        else st_dirs st;
      st_files :=
        if bool_decide (p ∈ st_dirs st)
        then filter (fun kv => under p kv.1 = false) (st_files st)
        else st_files st |}).

End Effects.
Export Effects.

(** ** The server *)

Module Server.

(** The dictionary [parse_share_url] returns. *)
Record VideoInfo := {
  url : str;
  title : str;
  video_id : str;
}.

Definition MSG_NO_LINK : str := lit "未找到有效的分享链接".
Definition MSG_NO_ROUTER_DATA : str := lit "从HTML中解析视频信息失败".
Definition MSG_NO_RECORD : str := lit "无法从JSON中解析视频或图集信息".

Definition video_id_page_key : str := lit "video_(id)/page".
Definition note_id_page_key : str := lit "note_(id)/page".

(** A [DouyinProcessor] is its instance dictionary. *)
Definition __init__ (share_link : str) : gmap string pyval :=
  <["share_link" := VStr share_link]>
    (<["cache_dir" := VStr (lit "../tmp")]> ∅).

(** [self.name] *)
Definition getattr (self : gmap string pyval) (name : string) : result pyval :=
  match self !! name with
  | Some v => Ok v
  | None => Raise (Faulted (NoField name))
  end.

(** [__del__]: [hasattr(self, 'temp_dir') and self.temp_dir.exists()]
    guards the removal. *)
Definition __del__ (self : gmap string pyval) : M unit :=
  match self !! "temp_dir" with
  | None => mret tt
  | Some (VPath p) =>
    found ← path_exists p;
    if found : bool then rmtree p else mret tt
  | Some v => raise (Faulted (NoAttribute v "exists"))
  end.

(** [share_response.url.split("?")[0].strip("/").split("/")[-1]] *)
Definition last_segment (u : str) : str :=
  str_last (str_split (ord "/")
    (str_strip_chars (lit "/") (str_first (str_split (ord "?") u)))).

(** The [if]/[elif]/[else] over the two page keys of [loaderData]. *)
Definition select_video_info (json_data : pyval) : result pyval :=
  loader ← getitem json_data (lit "loaderData");
  has_video ← py_in video_id_page_key loader;
  if has_video : bool then
    loader ← getitem json_data (lit "loaderData");
    page ← getitem loader video_id_page_key;
    getitem page (lit "videoInfoRes")
  else
    loader ← getitem json_data (lit "loaderData");
    has_note ← py_in note_id_page_key loader;
    if has_note : bool then
      loader ← getitem json_data (lit "loaderData");
      page ← getitem loader note_id_page_key;
      getitem page (lit "videoInfoRes")
    else Raise (Raised Exception_ MSG_NO_RECORD).

(** [data["video"]["play_addr"]["url_list"][0]] *)
Definition play_url (data : pyval) : result pyval :=
  video ← getitem data (lit "video");
  play_addr ← getitem video (lit "play_addr");
  url_list ← getitem play_addr (lit "url_list");
  getitem0 url_list.

(** From [video_url = ...] to the [return] of [parse_share_url]. *)
Definition make_video_info (video_id : str) (data : pyval) : result VideoInfo :=
  raw ← play_url data;
  video_url ← py_replace raw (lit "playwm") (lit "play");
  d ← py_get data (lit "desc") (VStr []);
  stripped ← py_strip d;
  let desc :=
    match stripped with
    | [] => lit "douyin_" ++ video_id
    | _ :: _ => stripped
    end in
  let desc := sub_illegal desc in
  Ok {| url := video_url; title := desc; video_id := video_id |}.

Section Program.

Context (rt : Runtime) (w : World).

(** [parse_share_url] up to [json.loads]: the link, the two requests, the
    embedded block. The result is [video_id] and [json_data]. *)
Definition load_router_data (self : gmap string pyval) : M (str * pyval) :=
  link ← lift (getattr self "share_link");
  match link with
  | VStr text =>
    match findall_url text with
    | [] => raise (Raised ValueError MSG_NO_LINK)
    | share_url :: _ =>
      share_response ← requests_get w share_url false;
      let video_id := last_segment (resp_url share_response) in
      let share_url := lit "https://www.iesdouyin.com/share/video/" ++ video_id in
      response ← requests_get w share_url false;
      raise_for_status response;;
      match router_search (resp_text response) with
      | None | Some [] => raise (Raised ValueError MSG_NO_ROUTER_DATA)
      | Some group1 =>
        json_data ← lift (json_loads rt (str_strip group1));
        mret (video_id, json_data)
      end
    end
  | v => raise (Faulted (BadPatternArg v))
  end.

(** [parse_share_url] up to [data = original_video_info["item_list"][0]]:
    the identifier and the record. *)
Definition locate_record (self : gmap string pyval) : M (str * pyval) :=
  '(video_id, json_data) ← load_router_data self;
  original_video_info ← lift (select_video_info json_data);
  item_list ← lift (getitem original_video_info (lit "item_list"));
  data ← lift (getitem0 item_list);
  mret (video_id, data).

Definition parse_share_url (self : gmap string pyval) : M VideoInfo :=
  '(video_id, data) ← locate_record self;
  lift (make_video_info video_id data).

(** The loop of [download_video] over the chunks of the body; the result is
    [downloaded]. The quotient [progress] is computed and never used. *)
Fixpoint write_chunks (total_size : Z) (filepath : str)
    (chunks : list bytes) (downloaded : Z) : M Z :=
  match chunks with
  | [] => mret downloaded
  | chunk :: rest =>
    match chunk with
    | [] => write_chunks total_size filepath rest downloaded
    | _ :: _ =>
      write_file filepath chunk;;
      let downloaded := (downloaded + Z.of_nat (length chunk))%Z in
      (if (0 <? total_size)%Z
       then emit (EvProgress downloaded total_size)
       else mret tt);;
      write_chunks total_size filepath rest downloaded
    end
  end.

(** [int(response.headers.get('content-length', 0))] *)
Definition total_size_of (response : Response) : result Z :=
  match resp_content_length response with
  | Some header => py_int rt header
  | None => Ok 0%Z
  end.

Definition download_video (self : gmap string pyval) (video_info : VideoInfo)
    : M str :=
  let filename := title video_info ++ lit ".mp4" in
  cache_dir ← lift (getattr self "cache_dir");
  let filepath := format_value rt cache_dir ++ lit "/" ++ filename in
  emit (EvInfo (lit "正在下载视频: " ++ title video_info));;
  response ← requests_get w (url video_info) true;
  raise_for_status response;;
  total_size ← lift (total_size_of response);
  open_file w filepath;;
  write_chunks total_size filepath (resp_chunks response) 0%Z;;
  match resp_stream_error response with
  | Some e => raise e
  | None =>
    emit (EvInfo (lit "视频下载完成: " ++ filepath));;
    mret filepath
  end.

(** The tools. Each returns the text [json.dumps] makes of a dictionary. *)
Definition get_douyin_download_link (share_link : str) : M str :=
  try_except
    (let processor := __init__ share_link in
     video_info ← parse_share_url processor;
     mret (json_dumps rt (VDict [
       (lit "status", VStr (lit "success"));
       (lit "video_id", VStr (video_id video_info));
       (lit "title", VStr (title video_info));
       (lit "download_url", VStr (url video_info));
       (lit "description", VStr (lit "视频标题: " ++ title video_info));
       (lit "usage_tip", VStr (lit "可以直接使用此链接下载无水印视频"))])))
    (fun e =>
     mret (json_dumps rt (VDict [
       (lit "status", VStr (lit "error"));
       (lit "error", VStr (lit "获取下载链接失败: " ++ exn_str rt e))]))).

Definition parse_douyin_video_info (share_link : str) : M str :=
  try_except
    (let processor := __init__ share_link in
     video_info ← parse_share_url processor;
     mret (json_dumps rt (VDict [
       (lit "video_id", VStr (video_id video_info));
       (lit "title", VStr (title video_info));
       (lit "download_url", VStr (url video_info));
       (lit "status", VStr (lit "success"))])))
    (fun e =>
     mret (json_dumps rt (VDict [
       (lit "status", VStr (lit "error"));
       (lit "error", VStr (exn_str rt e))]))).

Definition download_douyin_video (share_link : str) : M str :=
  let processor := __init__ share_link in
  video_info ← parse_share_url processor;
  video_path ← download_video processor video_info;
  mret (json_dumps rt (VDict [
    (lit "status", VStr (lit "success"));
    (lit "video_path", VStr video_path)])).

(** [json.dumps(video_info, ...)] takes the dictionary [parse_share_url]
    returns, with its keys in the order of the [return]. *)
Definition video_info_dict (video_info : VideoInfo) : pyval :=
  VDict [
    (lit "url", VStr (url video_info));
    (lit "title", VStr (title video_info));
    (lit "video_id", VStr (video_id video_info))].

(** The resource [douyin://video/{video_id}]; on failure it returns a plain
    text, not a dictionary. *)
Definition get_video_info (video_id : str) : M str :=
  let share_url := lit "https://www.iesdouyin.com/share/video/" ++ video_id in
  try_except
    (let processor := __init__ share_url in
     video_info ← parse_share_url processor;
     mret (json_dumps rt (video_info_dict video_info)))
    (fun e => mret (lit "获取视频信息失败: " ++ exn_str rt e)).

End Program.

End Server.
Export Server.

(** ** What the specification speaks of *)

Module Spec.

(** [t] is [s] with every occurrence of [old] replaced by [new],
    occurrences being taken from the left: either [old] does not occur in
    [s], or [s] is [pre ++ old ++ rest] with no occurrence starting inside
    [pre], and the replacement goes on in [rest]. An occurrence starting
    inside [pre] would lie within [pre ++ removelast old], [pre] followed by
    all of [old] but its last character. *)
Inductive ReplacedAll (old new : str) : str -> str -> Prop :=
| replaced_none (s : str) :
    str_contains old s = false -> ReplacedAll old new s s
| replaced_next (pre rest t : str) :
    str_contains old (pre ++ removelast old) = false ->
    ReplacedAll old new rest t ->
    ReplacedAll old new (pre ++ old ++ rest) (pre ++ new ++ t).

(** The nine characters a title must not contain; 92 is the backslash and
    34 the double quote. *)
Definition forbidden : str :=
  [92; ord "/"; ord ":"; ord "*"; ord "?"; 34; ord "<"; ord ">"; ord "|"].

(** The chunks written, and the values of [downloaded] reported, in the
    order of the events. *)
Definition written (evs : list event) : list bytes :=
  flat_map (fun ev => match ev with EvWrite _ data => [data] | _ => [] end) evs.

Definition reported (evs : list event) : list Z :=
  flat_map (fun ev => match ev with EvProgress d _ => [d] | _ => [] end) evs.

Definition opened (evs : list event) : list str :=
  flat_map (fun ev => match ev with EvOpen p => [p] | _ => [] end) evs.

Definition bytes_written (evs : list event) : Z :=
  Z.of_nat (length (concat (written evs))).

Definition nonempty (chunk : bytes) : bool :=
  match chunk with
  | [] => false
  | _ :: _ => true
  end.

(** The progress sink is called right after every write. *)
Definition reported_after_each_write (evs : list event) : Prop :=
  forall pre path chunk post,
    evs = pre ++ EvWrite path chunk :: post ->
    exists d t post', post = EvProgress d t :: post'.

(** Every value reported is the number of bytes written before the report. *)
Definition reports_bytes_written (evs : list event) : Prop :=
  forall pre d t post,
    evs = pre ++ EvProgress d t :: post -> d = bytes_written pre.

(** The count after each of [chunks], every chunk counted once with its
    full length, starting from [downloaded]. *)
Fixpoint running_totals (chunks : list bytes) (downloaded : Z) : list Z :=
  match chunks with
  | [] => []
  | chunk :: rest =>
    let downloaded := (downloaded + Z.of_nat (length chunk))%Z in
    downloaded :: running_totals rest downloaded
  end.

(** The events a computation adds to the trace when run from [st]. *)
Definition events_of {A} (m : M A) (st : state) : list event :=
  drop (length (st_trace st)) (st_trace (m st).2).

(** A download that delivers exactly [total] bytes: the file at [path]
    holds [total] bytes, the values reported never decrease, and the last
    one is [total]. *)
Definition delivers_exactly (total : Z) (path : str) (st' : state)
    (evs : list event) : Prop :=
  length <$> st_files st' !! path = Some (Z.to_nat total) /\
  StronglySorted Z.le (reported evs) /\
  last (reported evs) = Some total.

End Spec.
Export Spec.

(** ** Descriptions of runs used in the proofs *)

Module Runs.

(** The events of the loop of [download_video], as a list: what
    [write_chunks] appends to the trace. *)
Fixpoint chunk_events (total_size : Z) (filepath : str)
    (chunks : list bytes) (downloaded : Z) : list event :=
  match chunks with
  | [] => []
  | chunk :: rest =>
    if nonempty chunk then
      let downloaded := (downloaded + Z.of_nat (length chunk))%Z in
      EvWrite filepath chunk ::
      (if (0 <? total_size)%Z then [EvProgress downloaded total_size] else []) ++
      chunk_events total_size filepath rest downloaded
    else chunk_events total_size filepath rest downloaded
  end.

(** A computation is quiet when all it does to the outside is to issue
    requests: it opens, writes, reports and removes nothing. *)
Definition is_get (ev : event) : bool :=
  match ev with
  | EvGet _ _ => true
  | _ => false
  end.

Definition quiet_step (st st' : state) : Prop :=
  exists evs,
    st_trace st' = st_trace st ++ evs /\
    forallb is_get evs = true /\
    st_dirs st' = st_dirs st /\
    st_files st' = st_files st.

Definition Quiet {A} (m : M A) : Prop :=
  forall st r st', m st = (r, st') -> quiet_step st st'.

(** The address of the page of a post, without the identifier. *)
Definition page_prefix : str := lit "https://www.iesdouyin.com/share/video/".

(** [r] with another outcome of [raise_for_status()]. *)
Definition with_status (x : option exn) (r : Response) : Response := {|
  resp_url := resp_url r;
  resp_text := resp_text r;
  resp_status_error := x;
  resp_content_length := resp_content_length r;
  resp_chunks := resp_chunks r;
  resp_stream_error := resp_stream_error r;
|}.

(** The world [w], except that the answer to request number [n0] carries
    the status outcome [x]. *)
Definition status_at (n0 : nat) (x : option exn) (w : World) : World := {|
  http_get := fun n u =>
    if Nat.eqb n n0
    then match http_get w n u with
         | Ok r => Ok (with_status x r)
         | Raise e => Raise e
         end
    else http_get w n u;
  open_wb := open_wb w;
|}.

(** The state once the events [evs], all of them requests, have happened. *)
Definition after_requests (evs : list event) (st : state) : state := {|
  st_requests := st_requests st + length evs;
  st_trace := st_trace st ++ evs;
  st_dirs := st_dirs st;
  st_files := st_files st;
|}.

End Runs.
Export Runs.

(** ** A concrete runtime and concrete worlds *)

Module Demo.

(** Apostrophes stand for double quotes in the texts below. *)
Definition dq (s : str) : str :=
  map (fun c => if char_eqb c 39 then 34 else c) s.

Definition record (raw : str) (fields : list (str * pyval)) : pyval :=
  VDict ((lit "video",
          VDict [(lit "play_addr",
                  VDict [(lit "url_list", VList [VStr raw])])]) :: fields).

Definition payload (page_key : str) (data : pyval) : pyval :=
  VDict [(lit "loaderData",
          VDict [(page_key,
                  VDict [(lit "videoInfoRes",
                          VDict [(lit "item_list", VList [data])])])])].

Definition raw_url : str :=
  lit "https://aweme.snssdk.com/aweme/v1/playwm/?video_id=v0200fg10000".

Definition video_payload : pyval :=
  payload video_id_page_key (record raw_url [(lit "desc", VStr (lit "A:B Test"))]).

Definition video_text : str :=
  dq (lit "{'loaderData': {'video_(id)/page': {'videoInfoRes': {'item_list': [{'video': {'play_addr': {'url_list': ['https://aweme.snssdk.com/aweme/v1/playwm/?video_id=v0200fg10000']}}, 'desc': 'A:B Test'}]}}}}").

Definition note_payload : pyval :=
  payload note_id_page_key (record raw_url [(lit "desc", VStr (lit "  "))]).

Definition note_text : str :=
  dq (lit "{'loaderData': {'note_(id)/page': {'videoInfoRes': {'item_list': [{'video': {'play_addr': {'url_list': ['https://aweme.snssdk.com/aweme/v1/playwm/?video_id=v0200fg10000']}}, 'desc': '  '}]}}}}").

Definition other_payload : pyval :=
  VDict [(lit "loaderData", VDict [(lit "user_(id)/page", VDict [])])].

Definition other_text : str :=
  dq (lit "{'loaderData': {'user_(id)/page': {}}}").

(** [json.loads] on the three texts above; anything else is refused. *)
Definition loads (s : str) : result pyval :=
  if str_eqb s video_text then Ok video_payload
  else if str_eqb s note_text then Ok note_payload
  else if str_eqb s other_text then Ok other_payload
  else Raise (Raised (LibraryError (lit "JSONDecodeError"))
                (lit "Expecting value: line 1 column 1 (char 0)")).

(** A stand-in for [json.dumps]: the strings of a flat dictionary, one
    [key=value] line each. *)
Definition dumps (v : pyval) : str :=
  match v with
  | VDict fields =>
    flat_map (fun kv =>
      kv.1 ++ lit "=" ++
      match kv.2 with VStr s => s | _ => [] end ++ [10]) fields
  | _ => []
  end.

Definition is_digit (c : char) : bool := (48 <=? c) && (c <=? 57).

(** [int] on a run of decimal digits, which is all the examples send as
    [content-length]. A stand-in for the builtin: it refuses the signs and
    the surrounding white space that [int] accepts, and its message leaves
    out the literal. The theorems take [py_int] as it comes in the
    [Runtime]. *)
Definition int_of (s : str) : result Z :=
  match s with
  | _ :: _ =>
    if forallb is_digit s
    then Ok (fold_left (fun acc c => (acc * 10 + Z.of_N (c - 48))%Z) s 0%Z)
    else Raise (Raised ValueError (lit "invalid literal for int() with base 10"))
  | [] => Raise (Raised ValueError (lit "invalid literal for int() with base 10"))
  end.

Definition rt : Runtime := {|
  json_loads := loads;
  json_dumps := dumps;
  py_int := int_of;
  py_format := fun _ => lit "?";
  fault_str := fun _ => lit "fault";
|}.

Definition page (text : str) : str :=
  lit "<html><body><script>window._ROUTER_DATA = " ++ text ++
  lit "</script></body></html>".

Definition reply (final_url text : str) (content_length : option str)
    (chunks : list bytes) : Response := {|
  resp_url := final_url;
  resp_text := text;
  resp_status_error := None;
  resp_content_length := content_length;
  resp_chunks := chunks;
  resp_stream_error := None;
|}.

(** The short link redirects to the post, the page of the post embeds
    [text], and the media comes as [chunks] under [content_length]. *)
Definition world (text : str) (content_length : option str)
    (chunks : list bytes) : World := {|
  http_get := fun n u =>
    match n with
    | O => Ok (reply (lit "https://www.iesdouyin.com/share/video/7123456789012345678/?region=CN&from=web") [] None [])
    | S O => Ok (reply u (page text) None [])
    | _ => Ok (reply u [] content_length chunks)
    end;
  open_wb := fun _ => None;
|}.

Definition share_text : str :=
  lit "7.43 复制打开抖音 https://v.douyin.com/ABCDEFG/ 复制此链接".

Definition start : state := {|
  st_requests := 0;
  st_trace := [];
  st_dirs := {[ lit "../tmp" ]};
  st_files := ∅;
|}.

Definition abc : bytes := [Byte.x61; Byte.x62; Byte.x63].
Definition de : bytes := [Byte.x64; Byte.x65].

(** The worlds of the examples: a body of five bytes in three chunks under
    a declared size of five, the same body with no declared size, and a
    body of three bytes under a declared size of twenty-three, as when the
    header counts the bytes of a compressed transfer and the chunks are the
    decoded ones. *)
Definition declared : World := world video_text (Some (lit "5")) [abc; []; de].
Definition undeclared : World := world video_text None [abc; []; de].
Definition short : World := world video_text (Some (lit "23")) [abc].
Definition blank : World := world note_text None [].

Definition media (content_length : option str) (chunks : list bytes) : Response :=
  reply (lit "https://aweme.snssdk.com/aweme/v1/play/?video_id=v0200fg10000")
    [] content_length chunks.

Definition file_path : str := lit "../tmp/A_B Test.mp4".

(** The media request answered with an error status, with a
    [content-length] that is no number, and with a transfer that breaks
    after its chunks. *)
Definition forbidden_status : exn :=
  Raised (LibraryError (lit "HTTPError")) (lit "403 Client Error: Forbidden").

Definition refused : World := status_at 2 (Some forbidden_status) declared.

Definition garbled : World := world video_text (Some (lit "abc")) [abc; []; de].

Definition connection_broken : exn :=
  Raised (LibraryError (lit "ChunkedEncodingError")) (lit "Connection broken").

Definition cut_media : Response := {|
  resp_url := lit "https://aweme.snssdk.com/aweme/v1/play/?video_id=v0200fg10000";
  resp_text := [];
  resp_status_error := None;
  resp_content_length := Some (lit "5");
  resp_chunks := [abc];
  resp_stream_error := Some connection_broken;
|}.

Definition cut : World := {|
  http_get := fun n u =>
    match n with
    | O | S O => http_get declared n u
    | _ => Ok cut_media
    end;
  open_wb := fun _ => None;
|}.

(** A page whose list of records is empty, with a runtime that reads it. *)
Definition empty_payload : pyval :=
  VDict [(lit "loaderData",
          VDict [(video_id_page_key,
                  VDict [(lit "videoInfoRes",
                          VDict [(lit "item_list", VList [])])])])].

Definition empty_text : str :=
  dq (lit "{'loaderData': {'video_(id)/page': {'videoInfoRes': {'item_list': []}}}}").

Definition rt_empty : Runtime := {|
  json_loads := fun s =>
    if str_eqb s empty_text then Ok empty_payload else loads s;
  json_dumps := dumps;
  py_int := int_of;
  py_format := fun _ => lit "?";
  fault_str := fun _ => lit "fault";
|}.

Definition emptied : World := world empty_text None [].

(** A site that answers every request under the address requested, with
    the page of the post. *)
Definition direct : World := {|
  http_get := fun _ u => Ok (reply u (page video_text) None []);
  open_wb := fun _ => None;
|}.

Definition post_id : str := lit "7123456789012345678".

(** A payload whose [loaderData] is a list, not a dictionary. *)
Definition listed_payload : pyval :=
  VDict [(lit "loaderData", VList [VStr video_id_page_key])].

(** An object that, unlike those [__init__] builds, has a [temp_dir]. *)
Definition scratch_object : gmap string pyval :=
  <["temp_dir" := VPath (lit "../tmp")]> (__init__ share_text).

(** What the resolver returns in these worlds, and the state it leaves. *)
Definition info : VideoInfo := {|
  url := lit "https://aweme.snssdk.com/aweme/v1/play/?video_id=v0200fg10000";
  title := lit "A_B Test";
  video_id := lit "7123456789012345678";
|}.

Definition blank_info : VideoInfo := {|
  url := lit "https://aweme.snssdk.com/aweme/v1/play/?video_id=v0200fg10000";
  title := lit "douyin_7123456789012345678";
  video_id := lit "7123456789012345678";
|}.

Definition resolved : state := {|
  st_requests := 2;
  st_trace :=
    [EvGet (lit "https://v.douyin.com/ABCDEFG/") false;
     EvGet (lit "https://www.iesdouyin.com/share/video/7123456789012345678")
       false];
  st_dirs := {[ lit "../tmp" ]};
  st_files := ∅;
|}.

End Demo.

(** Literals of the source, evaluated to their code points. *)
Ltac eval_lit :=
  repeat match goal with
  | |- context [lit ?x] =>
    let v := eval vm_compute in (lit x) in change (lit x) with v
  | |- context [N_of_ascii ?x] =>
    let v := eval vm_compute in (N_of_ascii x) in change (N_of_ascii x) with v
  end.

(** ** Facts about text *)

Section StrFacts.

Implicit Types (s p old new pre rest : str) (c : char).

Lemma char_eqb_eq c1 c2 : char_eqb c1 c2 = true <-> c1 = c2.
Proof. unfold char_eqb. apply N.eqb_eq. Qed.

Lemma char_eqb_refl c : char_eqb c c = true.
Proof. by apply char_eqb_eq. Qed.

Lemma str_startswith_app p rest : str_startswith p (p ++ rest) = true.
Proof.
  induction p as [|x p IH]; [done|].
  simpl. by rewrite char_eqb_refl, IH.
Qed.

Lemma str_startswith_inv p s :
  str_startswith p s = true -> exists rest, s = p ++ rest.
Proof.
  revert s. induction p as [|x p IH]; intros s H.
  - by exists s.
  - destruct s as [|y s]; [done|]. simpl in H.
    apply andb_prop in H as [Hxy Hps].
    apply char_eqb_eq in Hxy as ->.
    destruct (IH _ Hps) as [rest ->]. by exists rest.
Qed.

(** Only the first [length p] characters of a text decide whether it starts
    with [p]. *)
Lemma str_startswith_long p s rest :
  (length p <= length s)%nat ->
  str_startswith p (s ++ rest) = str_startswith p s.
Proof.
  revert s. induction p as [|x p IH]; intros s Hlen; [done|].
  destruct s as [|y s]; simpl in *; [lia|].
  rewrite IH; [done|lia].
Qed.

Lemma str_startswith_short p s :
  (length s < length p)%nat -> str_startswith p s = false.
Proof.
  revert s. induction p as [|x p IH]; intros s Hlen; simpl in *; [lia|].
  destruct s as [|y s]; [done|]. simpl in Hlen.
  rewrite IH; [apply andb_false_r|lia].
Qed.

Lemma str_contains_short p s :
  (length s < length p)%nat -> str_contains p s = false.
Proof.
  induction s as [|y s IH]; intros Hlen.
  - simpl. rewrite str_startswith_short; [done|exact Hlen].
  - cbn [str_contains]. rewrite str_startswith_short by done.
    simpl. apply IH. simpl in Hlen. lia.
Qed.

Lemma str_contains_cons p c s :
  str_contains p (c :: s) = str_startswith p (c :: s) || str_contains p s.
Proof. done. Qed.

Lemma length_removelast_S (old : str) :
  old <> [] -> length old = S (length (removelast old)).
Proof.
  intros Hne. rewrite (app_removelast_last 0 Hne) at 1.
  rewrite length_app. simpl. lia.
Qed.

Lemma length_removelast_lt (old : str) :
  old <> [] -> (length (removelast old) < length old)%nat.
Proof. intros Hne. rewrite (length_removelast_S old Hne). lia. Qed.

(** An occurrence that starts inside [pre] would show in
    [pre ++ removelast old] already. *)
Lemma str_startswith_before old c pre rest :
  old <> [] ->
  str_startswith old (c :: pre ++ old ++ rest) =
  str_startswith old (c :: pre ++ removelast old).
Proof.
  intros Hne.
  rewrite (app_removelast_last 0 Hne) at 2.
  replace (c :: pre ++ (removelast old ++ [List.last old 0]) ++ rest)
    with ((c :: pre ++ removelast old) ++ ([List.last old 0] ++ rest)).
  - apply str_startswith_long.
    pose proof (length_removelast_S old Hne) as Hlen.
    simpl. rewrite length_app. lia.
  - simpl. by rewrite <- !app_assoc.
Qed.

(** The leftmost occurrence. *)
Lemma str_contains_leftmost old s :
  old <> [] ->
  str_contains old s = true ->
  exists pre rest,
    s = pre ++ old ++ rest /\
    str_contains old (pre ++ removelast old) = false.
Proof.
  intros Hne. induction s as [|c s IH]; intros H.
  - destruct old; [done|]. discriminate H.
  - rewrite str_contains_cons in H.
    destruct (str_startswith old (c :: s)) eqn:Hhead.
    + destruct (str_startswith_inv _ _ Hhead) as [rest Hrest].
      exists [], rest. split; [done|].
      apply str_contains_short. by apply length_removelast_lt.
    + simpl in H. destruct (IH H) as (pre & rest & -> & Hfree).
      exists (c :: pre), rest. split; [done|].
      change ((c :: pre) ++ removelast old) with (c :: pre ++ removelast old).
      rewrite str_contains_cons, Hfree.
      by rewrite <- (str_startswith_before old c pre rest Hne), Hhead.
Qed.

Lemma replace_go_skip old new k s :
  replace_go old new k s = replace_go old new 0 (drop k s).
Proof.
  revert k. induction s as [|c s IH]; intros k.
  - by destruct k.
  - destruct k as [|k]; [done|]. simpl. apply IH.
Qed.

Lemma replace_go_occurrence old new rest :
  old <> [] ->
  replace_go old new 0 (old ++ rest) = new ++ replace_go old new 0 rest.
Proof.
  intros Hne. destruct old as [|x old]; [done|].
  change ((x :: old) ++ rest) with (x :: old ++ rest).
  cbn [replace_go].
  change (x :: old ++ rest) with ((x :: old) ++ rest).
  rewrite str_startswith_app. f_equal.
  rewrite replace_go_skip. simpl. rewrite Nat.sub_0_r.
  by rewrite drop_app_length.
Qed.

Lemma replace_go_absent old new s :
  str_contains old s = false -> replace_go old new 0 s = s.
Proof.
  induction s as [|c s IH]; intros H; [done|].
  rewrite str_contains_cons in H. apply orb_false_elim in H as [Hhead Htail].
  cbn [replace_go]. rewrite Hhead. f_equal. by apply IH.
Qed.

Lemma replace_go_leftmost old new pre rest :
  old <> [] ->
  str_contains old (pre ++ removelast old) = false ->
  replace_go old new 0 (pre ++ old ++ rest) =
  pre ++ new ++ replace_go old new 0 rest.
Proof.
  intros Hne. induction pre as [|c pre IH]; intros Hfree.
  - by apply (replace_go_occurrence old new rest).
  - change ((c :: pre) ++ removelast old) with (c :: pre ++ removelast old)
      in Hfree.
    rewrite str_contains_cons in Hfree.
    apply orb_false_elim in Hfree as [Hhead Htail].
    change ((c :: pre) ++ old ++ rest) with (c :: pre ++ old ++ rest).
    cbn [replace_go].
    rewrite (str_startswith_before old c pre rest Hne), Hhead.
    simpl. f_equal. by apply IH.
Qed.

(** [str.replace] replaces every occurrence. *)
Lemma str_replace_all old new s :
  old <> [] -> ReplacedAll old new s (str_replace old new s).
Proof.
  intros Hne.
  assert (str_replace old new s = replace_go old new 0 s) as ->
    by (by destruct old).
  remember (length s) as n eqn:Hn. revert s Hn.
  induction n as [n IH] using lt_wf_ind. intros s ->.
  destruct (str_contains old s) eqn:Hocc.
  - destruct (str_contains_leftmost old s Hne Hocc) as (pre & rest & -> & Hfree).
    rewrite replace_go_leftmost by done.
    apply replaced_next; [done|].
    eapply IH; [|done].
    rewrite !length_app. destruct old; [done|]. simpl. lia.
  - rewrite replace_go_absent by done. by apply replaced_none.
Qed.

(** An iteration of the group of the link pattern is one character wide. *)
Lemma url_group_one s n : url_group s = Some n -> n = 1%nat.
Proof.
  destruct s as [|c s]; [done|]. unfold url_group.
  destruct (url_char c) eqn:Hc; [by intros [= <-]|].
  destruct (char_eqb c (ord "%")) eqn:Hp; [|done].
  apply char_eqb_eq in Hp as ->. discriminate Hc.
Qed.

Lemma illegal_char_forbidden c :
  c ∈ forbidden -> illegal_char c = true.
Proof.
  unfold forbidden. rewrite !elem_of_cons, elem_of_nil.
  intros H. repeat (destruct H as [->|H]; [done|]). done.
Qed.

(** [re.sub] leaves none of the nine characters behind. *)
Lemma sub_illegal_clean s c :
  c ∈ forbidden -> c ∉ sub_illegal s.
Proof.
  intros Hc Hin. apply illegal_char_forbidden in Hc.
  unfold sub_illegal in Hin. apply list_elem_of_fmap in Hin as (x & Hx & _).
  destruct (illegal_char x) eqn:Hill; subst c; [discriminate Hc|congruence].
Qed.

End StrFacts.

(** ** Facts about runs *)

Section MonadFacts.

Context {A B : Type}.

Lemma result_bind_Ok (r : result A) (f : A -> result B) b :
  r ≫= f = Ok b -> exists a, r = Ok a /\ f a = Ok b.
Proof. destruct r as [a|e]; [by exists a|done]. Qed.

Lemma M_bind_run (m : M A) (f : A -> M B) st :
  (m ≫= f) st =
  match m st with
  | (Ok a, st1) => f a st1
  | (Raise e, st1) => (Raise e, st1)
  end.
Proof. done. Qed.

Lemma M_bind_Ok (m : M A) (f : A -> M B) st b st' :
  (m ≫= f) st = (Ok b, st') ->
  exists a st1, m st = (Ok a, st1) /\ f a st1 = (Ok b, st').
Proof.
  rewrite M_bind_run. destruct (m st) as [[a|e] st1]; [|done].
  by exists a, st1.
Qed.

Lemma lift_Ok (r : result A) st a st' :
  lift r st = (Ok a, st') -> r = Ok a /\ st' = st.
Proof. unfold lift. by intros [= -> ->]. Qed.

End MonadFacts.

Section QuietFacts.

Context (rt : Runtime) (w : World).

Lemma quiet_step_refl st : quiet_step st st.
Proof. exists []. by rewrite app_nil_r. Qed.

Lemma quiet_step_trans st1 st2 st3 :
  quiet_step st1 st2 -> quiet_step st2 st3 -> quiet_step st1 st3.
Proof.
  intros (e1 & Ht1 & Hg1 & Hd1 & Hf1) (e2 & Ht2 & Hg2 & Hd2 & Hf2).
  exists (e1 ++ e2). repeat split.
  - by rewrite Ht2, Ht1, app_assoc.
  - by rewrite forallb_app, Hg1, Hg2.
  - congruence.
  - congruence.
Qed.

Lemma Quiet_ret {A} (a : A) : Quiet (mret a).
Proof. intros st r st' [= <- <-]. apply quiet_step_refl. Qed.

Lemma Quiet_raise {A} e : Quiet (@raise A e).
Proof. intros st r st' [= <- <-]. apply quiet_step_refl. Qed.

Lemma Quiet_lift {A} (x : result A) : Quiet (lift x).
Proof. intros st r st' [= <- <-]. apply quiet_step_refl. Qed.

Lemma Quiet_bind {A B} (m : M A) (f : A -> M B) :
  Quiet m -> (forall a, Quiet (f a)) -> Quiet (m ≫= f).
Proof.
  intros Hm Hf st r st'. rewrite M_bind_run.
  destruct (m st) as [[a|e] st1] eqn:Hrun; intros H.
  - eapply quiet_step_trans; [by eapply Hm|by eapply Hf].
  - injection H as <- <-. by eapply Hm.
Qed.

Lemma Quiet_requests_get u stream : Quiet (requests_get w u stream).
Proof.
  intros st r st' [= <- <-]. by exists [EvGet u stream].
Qed.

Lemma Quiet_raise_for_status response : Quiet (raise_for_status response).
Proof.
  unfold raise_for_status. destruct (resp_status_error response).
  - apply Quiet_raise.
  - apply Quiet_ret.
Qed.

Lemma Quiet_load_router_data self : Quiet (load_router_data rt w self).
Proof.
  unfold load_router_data.
  apply Quiet_bind; [apply Quiet_lift|]. intros link.
  destruct link; try apply Quiet_raise.
  destruct (findall_url s) as [|share_url urls]; [apply Quiet_raise|].
  apply Quiet_bind; [apply Quiet_requests_get|]. intros share_response.
  apply Quiet_bind; [apply Quiet_requests_get|]. intros response.
  apply Quiet_bind; [apply Quiet_raise_for_status|]. intros _.
  destruct (router_search (resp_text response)) as [[|c group1]|];
    try apply Quiet_raise.
  apply Quiet_bind; [apply Quiet_lift|]. intros json_data.
  apply Quiet_ret.
Qed.

Lemma Quiet_locate_record self : Quiet (locate_record rt w self).
Proof.
  unfold locate_record.
  apply Quiet_bind; [apply Quiet_load_router_data|]. intros [video_id json_data].
  repeat (apply Quiet_bind; [apply Quiet_lift|]; intros ?).
  apply Quiet_ret.
Qed.

Lemma Quiet_parse_share_url self : Quiet (parse_share_url rt w self).
Proof.
  unfold parse_share_url.
  apply Quiet_bind; [apply Quiet_locate_record|]. intros [video_id data].
  apply Quiet_lift.
Qed.

End QuietFacts.

Section RunFacts.

Context (rt : Runtime) (w : World).

(** A successful [parse_share_url] located a record and built the result
    from it, with no effect of its own in between. *)
Lemma parse_share_url_Ok self st info st' :
  parse_share_url rt w self st = (Ok info, st') ->
  exists vid data,
    locate_record rt w self st = (Ok (vid, data), st') /\
    make_video_info vid data = Ok info.
Proof.
  unfold parse_share_url. intros H.
  apply M_bind_Ok in H as ([vid data] & st1 & Hloc & Hmake).
  apply lift_Ok in Hmake as [Hmake ->]. by exists vid, data.
Qed.

Lemma parse_share_url_Raise self st vid data e st' :
  locate_record rt w self st = (Ok (vid, data), st') ->
  make_video_info vid data = Raise e ->
  parse_share_url rt w self st = (Raise e, st').
Proof.
  intros Hloc Hmake. unfold parse_share_url.
  rewrite M_bind_run, Hloc. unfold lift. by rewrite Hmake.
Qed.

(** What a successful [make_video_info] read. *)
Lemma make_video_info_Ok vid data info :
  make_video_info vid data = Ok info ->
  exists raw d,
    play_url data = Ok (VStr raw) /\
    py_get data (lit "desc") (VStr []) = Ok (VStr d) /\
    info = {| url := str_replace (lit "playwm") (lit "play") raw;
              title := sub_illegal
                match str_strip d with
                | [] => lit "douyin_" ++ vid
                | _ :: _ => str_strip d
                end;
              video_id := vid |}.
Proof.
  unfold make_video_info. intros H.
  apply result_bind_Ok in H as (raw & Hraw & H).
  apply result_bind_Ok in H as (video_url & Hurl & H).
  apply result_bind_Ok in H as (d & Hd & H).
  apply result_bind_Ok in H as (stripped & Hstrip & H).
  destruct raw; try discriminate Hurl. injection Hurl as <-.
  destruct d; try discriminate Hstrip. injection Hstrip as <-.
  injection H as <-. by eexists _, _.
Qed.

(** The loop writes every non-empty chunk, in order, at the end of the file
    and returns the bytes counted. *)
Lemma write_chunks_run total path chunks d st old :
  st_files st !! path = Some old ->
  write_chunks total path chunks d st =
  (Ok (d + Z.of_nat (length (concat chunks)))%Z,
   {| st_requests := st_requests st;
      st_trace := st_trace st ++ chunk_events total path chunks d;
      st_dirs := st_dirs st;
      st_files := <[path := old ++ concat chunks]> (st_files st) |}).
Proof.
  revert d st old. induction chunks as [|chunk rest IH]; intros d st old Hold.
  - simpl. rewrite !app_nil_r, Z.add_0_r, insert_id by done.
    by destruct st.
  - destruct chunk as [|b chunk].
    + simpl. by apply IH.
    + cbn [write_chunks chunk_events nonempty concat].
      rewrite M_bind_run. cbn [write_file].
      rewrite M_bind_run.
      destruct (0 <? total)%Z.
      * cbn [emit st_trace st_files st_requests st_dirs].
        erewrite IH by (cbn; apply lookup_insert_eq).
        cbn [st_trace st_files st_requests st_dirs].
        rewrite Hold. cbn [default]. unfold id.
        rewrite insert_insert_eq, <- !app_assoc, length_app, Nat2Z.inj_add.
        by rewrite Z.add_assoc.
      * cbn [mret M_ret st_trace st_files st_requests st_dirs].
        erewrite IH by (cbn; apply lookup_insert_eq).
        cbn [st_trace st_files st_requests st_dirs].
        rewrite Hold. cbn [default]. unfold id.
        rewrite insert_insert_eq, <- !app_assoc, length_app, Nat2Z.inj_add.
        by rewrite Z.add_assoc.
Qed.

End RunFacts.

Section DownloadFacts.

Context (rt : Runtime) (w : World).

(** A run of [download_video] either stops before the file is opened, or
    opens it, goes through all the chunks and ends with the outcome of the
    transfer. *)
Lemma download_video_cases self info st r st' :
  download_video rt w self info st = (r, st') ->
  exists evs,
    st_trace st' = st_trace st ++ evs /\
    ((opened evs = [] /\ written evs = [] /\ reported evs = [] /\
      (exists e, r = Raise e) /\ st_files st' = st_files st)
     \/
     exists cache response total,
       getattr self "cache_dir" = Ok cache /\
       http_get w (st_requests st) (url info) = Ok response /\
       resp_status_error response = None /\
       total_size_of rt response = Ok total /\
       let path := format_value rt cache ++ lit "/" ++ title info ++ lit ".mp4" in
       evs = [EvInfo (lit "正在下载视频: " ++ title info);
              EvGet (url info) true; EvOpen path] ++
             chunk_events total path (resp_chunks response) 0 ++
             match resp_stream_error response with
             | Some _ => []
             | None => [EvInfo (lit "视频下载完成: " ++ path)]
             end /\
       st_files st' = <[path := concat (resp_chunks response)]> (st_files st) /\
       r = match resp_stream_error response with
           | Some e => Raise e
           | None => Ok path
           end).
Proof.
  unfold download_video. rewrite M_bind_run. unfold lift at 1.
  destruct (getattr self "cache_dir") as [cache|e] eqn:Hcache.
  2:{ intros [= <- <-]. exists []. rewrite app_nil_r. split; [done|]. left.
      repeat split; eauto. }
  rewrite M_bind_run. cbn [emit]. rewrite M_bind_run.
  cbn [requests_get st_requests st_trace st_dirs st_files].
  destruct (http_get w (st_requests st) (url info)) as [response|e] eqn:Hget.
  2:{ intros [= <- <-]. eexists. split; [by rewrite <- app_assoc|]. left.
      repeat split; eauto. }
  rewrite M_bind_run. unfold raise_for_status.
  destruct (resp_status_error response) as [e|] eqn:Hstatus.
  { intros [= <- <-]. eexists. split; [by rewrite <- app_assoc|]. left.
    repeat split; eauto. }
  cbn [mret M_ret]. rewrite M_bind_run. unfold lift at 1.
  destruct (total_size_of rt response) as [total|e] eqn:Htotal.
  2:{ intros [= <- <-]. eexists. split; [by rewrite <- app_assoc|]. left.
      repeat split; eauto. }
  rewrite M_bind_run. unfold open_file.
  destruct (open_wb w _) as [e|] eqn:Hopen.
  { intros [= <- <-]. eexists. split; [by rewrite <- app_assoc|]. left.
    repeat split; eauto. }
  rewrite M_bind_run.
  erewrite write_chunks_run by (cbn; apply lookup_insert_eq).
  cbn [st_requests st_trace st_dirs st_files app].
  rewrite insert_insert_eq.
  destruct (resp_stream_error response) as [e|] eqn:Hstream.
  - intros [= <- <-]. eexists. split; [by rewrite <- !app_assoc|]. right.
    exists cache, response, total. rewrite Hstream, app_nil_r.
    by repeat split.
  - rewrite M_bind_run. cbn [emit st_requests st_trace st_dirs st_files].
    intros [= <- <-]. eexists. split; [by rewrite <- !app_assoc|]. right.
    exists cache, response, total. rewrite Hstream.
    by repeat split.
Qed.

End DownloadFacts.

(** ** Facts about traces *)

Section TraceFacts.

Implicit Types (evs pre post : list event) (ev : event).

Lemma events_of_eq {A} (m : M A) st evs :
  st_trace (m st).2 = st_trace st ++ evs -> events_of m st = evs.
Proof. unfold events_of. intros ->. by rewrite drop_app_length. Qed.

Lemma written_app evs1 evs2 : written (evs1 ++ evs2) = written evs1 ++ written evs2.
Proof. unfold written. by rewrite flat_map_app. Qed.

Lemma reported_app evs1 evs2 :
  reported (evs1 ++ evs2) = reported evs1 ++ reported evs2.
Proof. unfold reported. by rewrite flat_map_app. Qed.

Lemma opened_app evs1 evs2 : opened (evs1 ++ evs2) = opened evs1 ++ opened evs2.
Proof. unfold opened. by rewrite flat_map_app. Qed.

Lemma bytes_written_app evs1 evs2 :
  bytes_written (evs1 ++ evs2) = (bytes_written evs1 + bytes_written evs2)%Z.
Proof.
  unfold bytes_written. rewrite written_app, concat_app, length_app. lia.
Qed.

(** Requests alone open, write and report nothing. *)
Lemma gets_only evs :
  forallb is_get evs = true ->
  opened evs = [] /\ written evs = [] /\ reported evs = [].
Proof.
  induction evs as [|ev evs IH]; [done|].
  simpl. intros H. apply andb_prop in H as [Hev Hevs].
  destruct ev; try discriminate Hev. by apply IH.
Qed.

(** Where an event sits in a concatenation. *)
Lemma elem_of_app_split ev (l1 l2 pre post : list event) :
  l1 ++ l2 = pre ++ ev :: post ->
  (exists mid, l1 = pre ++ ev :: mid /\ post = mid ++ l2) \/
  (exists mid, pre = l1 ++ mid /\ l2 = mid ++ ev :: post).
Proof.
  revert pre. induction l1 as [|x l1 IH]; intros pre H.
  - right. by exists pre.
  - destruct pre as [|y pre].
    + injection H as -> <-. left. by exists l1.
    + injection H as -> H. destruct (IH _ H) as [(mid & -> & ->)|(mid & -> & ->)].
      * left. by exists mid.
      * right. by exists mid.
Qed.

Lemma written_has_write pre path chunk post :
  written (pre ++ EvWrite path chunk :: post) <> [].
Proof.
  rewrite written_app. simpl. intros H.
  apply app_eq_nil in H as [_ H]. discriminate H.
Qed.

Lemma reported_has_progress pre d t post :
  reported (pre ++ EvProgress d t :: post) <> [].
Proof.
  rewrite reported_app. simpl. intros H.
  apply app_eq_nil in H as [_ H]. discriminate H.
Qed.

Section Loop.

Context (total : Z) (path : str).

Implicit Types (chunks : list bytes) (d : Z).

Lemma chunk_events_written chunks d :
  written (chunk_events total path chunks d) = filter (fun c => nonempty c = true) chunks.
Proof.
  revert d. induction chunks as [|chunk rest IH]; intros d; [done|].
  destruct chunk as [|b chunk].
  - simpl. rewrite IH. by rewrite filter_cons_False by done.
  - cbn [chunk_events nonempty]. rewrite filter_cons_True by done.
    change (written (?e :: ?l)) with (written [e] ++ written l).
    rewrite written_app, IH. by destruct (0 <? total)%Z.
Qed.

Lemma chunk_events_opened chunks d :
  opened (chunk_events total path chunks d) = [].
Proof.
  revert d. induction chunks as [|chunk rest IH]; intros d; [done|].
  destruct chunk as [|b chunk]; [apply IH|].
  cbn [chunk_events nonempty].
  change (opened (?e :: ?l)) with (opened [e] ++ opened l).
  rewrite opened_app, IH. by destruct (0 <? total)%Z.
Qed.

(** No declared size, no report. *)
Lemma chunk_events_silent chunks d :
  (total <= 0)%Z -> reported (chunk_events total path chunks d) = [].
Proof.
  intros Htotal. assert ((0 <? total)%Z = false) as Hno by lia.
  revert d. induction chunks as [|chunk rest IH]; intros d; [done|].
  destruct chunk as [|b chunk]; [apply IH|].
  cbn [chunk_events nonempty]. rewrite Hno. apply IH.
Qed.

(** A declared size: one report right after each write. *)
Lemma chunk_events_reported_after chunks d :
  (0 < total)%Z -> reported_after_each_write (chunk_events total path chunks d).
Proof.
  intros Htotal. assert ((0 <? total)%Z = true) as Hyes by lia.
  revert d. induction chunks as [|chunk rest IH]; intros d pre p c post H.
  - by destruct pre.
  - destruct chunk as [|b chunk]; [exact (IH d pre p c post H)|].
    cbn [chunk_events nonempty] in H. rewrite Hyes in H.
    destruct pre as [|e1 pre].
    + injection H as _ _ <-. by eexists _, _, _.
    + injection H as _ H. destruct pre as [|e2 pre]; [discriminate H|].
      injection H as _ H. exact (IH _ pre p c post H).
Qed.

Lemma chunk_events_reported_length chunks d :
  (0 < total)%Z ->
  length (reported (chunk_events total path chunks d)) =
  length (filter (fun c => nonempty c = true) chunks).
Proof.
  intros Htotal. assert ((0 <? total)%Z = true) as Hyes by lia.
  revert d. induction chunks as [|chunk rest IH]; intros d; [done|].
  destruct chunk as [|b chunk].
  - rewrite filter_cons_False by done. apply IH.
  - rewrite filter_cons_True by done.
    cbn [chunk_events nonempty]. rewrite Hyes. simpl. f_equal. apply IH.
Qed.

(** A report carries the bytes counted at the start of the loop plus the
    bytes written since, and the declared size. *)
Lemma chunk_events_progress chunks d pre d' t post :
  chunk_events total path chunks d = pre ++ EvProgress d' t :: post ->
  d' = (d + bytes_written pre)%Z /\ t = total.
Proof.
  revert d pre. induction chunks as [|chunk rest IH]; intros d pre H.
  - by destruct pre.
  - destruct chunk as [|b chunk]; [by apply IH|].
    cbn [chunk_events nonempty] in H.
    destruct pre as [|e1 pre]; [discriminate H|].
    injection H as <- H.
    change (EvWrite path (b :: chunk) :: pre)
      with ([EvWrite path (b :: chunk)] ++ pre).
    rewrite bytes_written_app.
    change (bytes_written [EvWrite path (b :: chunk)])
      with (Z.of_nat (length ((b :: chunk) ++ []))).
    rewrite app_nil_r.
    destruct (0 <? total)%Z.
    + destruct pre as [|e2 pre].
      * injection H as <- <- _. unfold bytes_written. simpl. split; [lia|done].
      * injection H as <- H. apply IH in H as [-> ->].
        change (EvProgress ?a ?b :: pre) with ([EvProgress a b] ++ pre).
        rewrite bytes_written_app. unfold bytes_written at 2. simpl.
        split; [lia|done].
    + apply IH in H as [-> ->]. split; [cbn [length]; lia|done].
Qed.

Lemma chunk_events_reported_bounds chunks d x :
  x ∈ reported (chunk_events total path chunks d) ->
  (d < x <= d + Z.of_nat (length (concat chunks)))%Z.
Proof.
  revert d x. induction chunks as [|chunk rest IH]; intros d x Hx.
  - by apply elem_of_nil in Hx.
  - destruct chunk as [|b chunk]; [by apply IH|].
    cbn [chunk_events nonempty] in Hx.
    cbn [concat]. rewrite length_app.
    assert (forall y, y ∈ reported (chunk_events total path rest
              (d + Z.of_nat (length (b :: chunk)))) ->
            (d < y <= d + Z.of_nat (length (b :: chunk) + length (concat rest)))%Z)
      as Hrest.
    { intros y Hy. apply IH in Hy. simpl in *. lia. }
    destruct (0 <? total)%Z.
    + simpl in Hx. apply elem_of_cons in Hx as [->|Hx]; [simpl; lia|].
      by apply Hrest.
    + by apply Hrest.
Qed.

Lemma chunk_events_reported_sorted chunks d :
  StronglySorted Z.le (reported (chunk_events total path chunks d)).
Proof.
  revert d. induction chunks as [|chunk rest IH]; intros d; [constructor|].
  destruct chunk as [|b chunk]; [apply IH|].
  cbn [chunk_events nonempty].
  destruct (0 <? total)%Z; [|apply IH].
  simpl. constructor; [apply IH|].
  apply Forall_forall. intros y Hy.
  apply chunk_events_reported_bounds in Hy. lia.
Qed.

Lemma chunk_events_reported_last chunks d :
  (0 < total)%Z ->
  concat chunks <> [] ->
  last (reported (chunk_events total path chunks d)) =
  Some (d + Z.of_nat (length (concat chunks)))%Z.
Proof.
  intros Htotal. assert ((0 <? total)%Z = true) as Hyes by lia.
  revert d. induction chunks as [|chunk rest IH]; intros d Hne; [done|].
  destruct chunk as [|b chunk]; [by apply IH|].
  cbn [chunk_events nonempty]. rewrite Hyes.
  cbn [concat]. rewrite length_app.
  destruct (decide (concat rest = [])) as [Hnil|Hmore].
  - assert (reported (chunk_events total path rest
              (d + Z.of_nat (length (b :: chunk)))) = []) as Hnone.
    { destruct (reported _) as [|y ys] eqn:Hrep; [done|].
      assert (y ∈ reported (chunk_events total path rest
                (d + Z.of_nat (length (b :: chunk))))) as Hy
        by (rewrite Hrep; left).
      apply chunk_events_reported_bounds in Hy. rewrite Hnil in Hy.
      simpl in Hy. lia. }
    cbn [app reported flat_map]. fold (reported (chunk_events total path rest
      (d + Z.of_nat (length (b :: chunk))))).
    rewrite Hnone, Hnil. simpl. f_equal. lia.
  - cbn [app reported flat_map]. fold (reported (chunk_events total path rest
      (d + Z.of_nat (length (b :: chunk))))).
    rewrite last_cons, IH by done. f_equal. lia.
Qed.

End Loop.

End TraceFacts.

(** ** The resolver *)

Section Resolver.

Context (rt : Runtime) (w : World).

(** The resolver touches no file: all it does to the outside is to issue
    requests. *)
Corollary resolution_touches_no_file self st :
  let st' := (parse_share_url rt w self st).2 in
  st_dirs st' = st_dirs st /\
  st_files st' = st_files st /\
  exists evs,
    st_trace st' = st_trace st ++ evs /\
    opened evs = [] /\ written evs = [] /\ reported evs = [].
Proof.
  cbn zeta.
  destruct (parse_share_url rt w self st) as [r st'] eqn:Hrun.
  apply Quiet_parse_share_url in Hrun as (evs & Htrace & Hgets & Hdirs & Hfiles).
  split; [done|]. split; [done|]. exists evs. split; [done|].
  by apply gets_only.
Qed.

(** C4: when the link pattern finds no match in the share text,
    [parse_share_url] raises [ValueError] with the no-valid-link message and
    leaves the state as it found it: no request has been issued, the trace
    has no new event. *)
Theorem no_link_no_request self text st :
  self !! "share_link" = Some (VStr text) ->
  findall_url text = [] ->
  parse_share_url rt w self st = (Raise (Raised ValueError MSG_NO_LINK), st) /\
  events_of (parse_share_url rt w self) st = [].
Proof.
  intros Hattr Hnone.
  assert (parse_share_url rt w self st =
          (Raise (Raised ValueError MSG_NO_LINK), st)) as Hrun.
  { unfold parse_share_url, locate_record, load_router_data, getattr.
    rewrite !M_bind_run, Hattr. unfold lift. by rewrite Hnone. }
  split; [exact Hrun|].
  apply events_of_eq. by rewrite Hrun, app_nil_r.
Qed.

(** C1: after a successful resolution the [url] of the result is the first
    element of [video.play_addr.url_list] of the record, a string, with
    every occurrence of [playwm] replaced by [play]. *)
Theorem url_is_play_url_without_playwm self st info st' :
  parse_share_url rt w self st = (Ok info, st') ->
  exists vid data raw,
    locate_record rt w self st = (Ok (vid, data), st') /\
    play_url data = Ok (VStr raw) /\
    url info = str_replace (lit "playwm") (lit "play") raw /\
    ReplacedAll (lit "playwm") (lit "play") raw (url info).
Proof.
  intros Hrun.
  apply parse_share_url_Ok in Hrun as (vid & data & Hloc & Hmake).
  apply make_video_info_Ok in Hmake as (raw & d & Hraw & _ & ->).
  exists vid, data, raw. repeat split; [done..|].
  by apply str_replace_all.
Qed.

(** C8: after a successful resolution the record is a dictionary; when it
    has no [desc], or its [desc] is blank once stripped, the [title] is the
    sanitized text [douyin_] followed by the identifier, and otherwise the
    sanitized stripped [desc]. A [desc] that is not a string does not lead
    to a result. *)
Theorem title_from_desc_or_video_id self st info st' :
  parse_share_url rt w self st = (Ok info, st') ->
  exists vid fields,
    locate_record rt w self st = (Ok (vid, VDict fields), st') /\
    video_id info = vid /\
    match dict_get (lit "desc") fields with
    | None => title info = sub_illegal (lit "douyin_" ++ vid)
    | Some (VStr d) =>
      match str_strip d with
      | [] => title info = sub_illegal (lit "douyin_" ++ vid)
      | _ :: _ => title info = sub_illegal (str_strip d)
      end
    | Some _ => False
    end.
Proof.
  intros Hrun.
  apply parse_share_url_Ok in Hrun as (vid & data & Hloc & Hmake).
  apply make_video_info_Ok in Hmake as (raw & d & _ & Hdesc & ->).
  destruct data; try discriminate Hdesc.
  exists vid, fields. repeat split; [done|].
  cbn [py_get] in Hdesc. cbn [title].
  destruct (dict_get (lit "desc") fields) as [v|].
  - injection Hdesc as ->. by destruct (str_strip d).
  - injection Hdesc as <-. done.
Qed.

(** C3: after a successful resolution the [title] contains none of the nine
    characters: it is a text in which each of them has become an
    underscore, and it is this title that [download_video] puts into the
    path of the file it opens. *)
Theorem title_has_no_forbidden_character self st info st' :
  parse_share_url rt w self st = (Ok info, st') ->
  (forall c, c ∈ forbidden -> c ∉ title info) /\
  (exists desc, title info = sub_illegal desc) /\
  (forall p, p ∈ opened (events_of (download_video rt w self info) st') ->
     exists dir, p = dir ++ lit "/" ++ title info ++ lit ".mp4").
Proof.
  intros Hrun.
  apply parse_share_url_Ok in Hrun as (vid & data & Hloc & Hmake).
  apply make_video_info_Ok in Hmake as (raw & d & _ & _ & Hinfo).
  assert (exists desc, title info = sub_illegal desc) as [desc Htitle]
    by (rewrite Hinfo; by eexists).
  clear Hinfo. split; [|split].
  - intros c Hc. rewrite Htitle. by apply sub_illegal_clean.
  - by exists desc.
  - intros p Hp.
    destruct (download_video rt w self info st') as [r st2] eqn:Hdl.
    pose proof (download_video_cases _ _ _ _ _ _ _ Hdl) as (evs & Htrace & Hcases).
    rewrite (events_of_eq _ _ evs) in Hp by (by rewrite Hdl).
    destruct Hcases as [(Hopen & _)|(cache & response & total & _ & _ & _ & _ & Hevs & _)].
    + rewrite Hopen in Hp. by apply elem_of_nil in Hp.
    + cbn zeta in Hevs. rewrite Hevs in Hp.
      rewrite !opened_app, chunk_events_opened in Hp.
      assert (forall msg, opened (match resp_stream_error response with
                                  | Some _ => []
                                  | None => [EvInfo msg]
                                  end) = []) as Htail
        by (intros msg; by destruct (resp_stream_error response)).
      rewrite Htail in Hp. cbn [opened flat_map app] in Hp.
      apply list_elem_of_singleton in Hp as ->.
      by exists (format_value rt cache).
Qed.


End Resolver.

(** ** The tools and the finalizer *)

Section Tools.

Context (rt : Runtime) (w : World).

(** C5: [get_douyin_download_link] and [parse_douyin_video_info] always
    return; an exception [e] raised by the resolution becomes the text of
    the dictionary with [status] set to [error] and [error] carrying
    [str(e)], behind a fixed prefix in the first tool.
    [download_douyin_video] has no handler: an exception raised by the
    resolution or by the download is the outcome of the tool. *)
Theorem tools_error_boundary share_link st :
  (exists out st', get_douyin_download_link rt w share_link st = (Ok out, st')) /\
  (exists out st', parse_douyin_video_info rt w share_link st = (Ok out, st')) /\
  (forall e st',
     parse_share_url rt w (__init__ share_link) st = (Raise e, st') ->
     get_douyin_download_link rt w share_link st =
       (Ok (json_dumps rt (VDict [
          (lit "status", VStr (lit "error"));
          (lit "error", VStr (lit "获取下载链接失败: " ++ exn_str rt e))])),
        st') /\
     parse_douyin_video_info rt w share_link st =
       (Ok (json_dumps rt (VDict [
          (lit "status", VStr (lit "error"));
          (lit "error", VStr (exn_str rt e))])),
        st') /\
     download_douyin_video rt w share_link st = (Raise e, st')) /\
  (forall video_info st1 e st',
     parse_share_url rt w (__init__ share_link) st = (Ok video_info, st1) ->
     download_video rt w (__init__ share_link) video_info st1 = (Raise e, st') ->
     download_douyin_video rt w share_link st = (Raise e, st')).
Proof.
  unfold get_douyin_download_link, parse_douyin_video_info,
    download_douyin_video, try_except.
  cbn zeta. rewrite !M_bind_run.
  destruct (parse_share_url rt w (__init__ share_link) st) as [[v|e0] st0].
  - split; [by eexists _, _|]. split; [by eexists _, _|]. split.
    + intros e st' [=].
    + intros video_info st1 e st' [= <- <-] Hdl.
      rewrite M_bind_run. by rewrite Hdl.
  - split; [by eexists _, _|]. split; [by eexists _, _|]. split.
    + by intros e st' [= <- <-].
    + intros video_info st1 e st' [=].
Qed.

(** C9: the initializer assigns [cache_dir] and [share_link] and nothing
    else, so the object has no [temp_dir]; the finalizer then returns at
    its guard and leaves the state, with its directories and files, as it
    was. *)
Theorem finalizer_removes_nothing share_link st :
  dom (__init__ share_link) = ({[ "cache_dir"; "share_link" ]} : gset string) /\
  __init__ share_link !! "temp_dir" = None /\
  __del__ (__init__ share_link) st = (Ok tt, st).
Proof.
  assert (__init__ share_link !! "temp_dir" = None) as Hnone.
  { unfold __init__. by rewrite !lookup_insert_ne, lookup_empty. }
  split; [|split; [exact Hnone|]].
  - unfold __init__. rewrite !dom_insert_L, dom_empty_L. set_solver.
  - unfold __del__. by rewrite Hnone.
Qed.

End Tools.

(** ** The downloader *)

Section Downloader.

Context (rt : Runtime) (w : World).

Lemma reported_after_each_write_quiet evs :
  written evs = [] -> reported_after_each_write evs.
Proof.
  intros Hnone pre path chunk post ->. by apply written_has_write in Hnone.
Qed.

Lemma reported_after_each_write_app evs1 evs2 :
  reported_after_each_write evs1 ->
  reported_after_each_write evs2 ->
  reported_after_each_write (evs1 ++ evs2).
Proof.
  intros H1 H2 pre path chunk post Heq.
  apply elem_of_app_split in Heq as [(mid & Heq & ->)|(mid & -> & Heq)].
  - destruct (H1 _ _ _ _ Heq) as (d & t & post' & ->).
    by exists d, t, (post' ++ evs2).
  - by apply H2 in Heq.
Qed.

Lemma concat_nonempty (chunks : list bytes) :
  concat (filter (fun c => nonempty c = true) chunks) = concat chunks.
Proof.
  induction chunks as [|chunk rest IH]; [done|].
  destruct chunk as [|b chunk].
  - by rewrite filter_cons_False.
  - rewrite filter_cons_True by done. simpl. by rewrite IH.
Qed.

(** The events of a run of [download_video]: nothing opened, written or
    reported if it stops early; otherwise the loop over the chunks of the
    response, between events that write and report nothing. *)
Lemma download_video_events self info st :
  let run := download_video rt w self info st in
  let evs := events_of (download_video rt w self info) st in
  (opened evs = [] /\ written evs = [] /\ reported evs = [] /\
   (exists e, run.1 = Raise e))
  \/
  exists cache response total head tail,
    getattr self "cache_dir" = Ok cache /\
    http_get w (st_requests st) (url info) = Ok response /\
    total_size_of rt response = Ok total /\
    let path := format_value rt cache ++ lit "/" ++ title info ++ lit ".mp4" in
    evs = head ++ chunk_events total path (resp_chunks response) 0 ++ tail /\
    opened head = [path] /\ written head = [] /\ reported head = [] /\
    opened tail = [] /\ written tail = [] /\ reported tail = [] /\
    st_files run.2 = <[path := concat (resp_chunks response)]> (st_files st) /\
    run.1 = match resp_stream_error response with
            | Some e => Raise e
            | None => Ok path
            end.
Proof.
  cbn zeta.
  destruct (download_video rt w self info st) as [r st'] eqn:Hrun.
  pose proof (download_video_cases _ _ _ _ _ _ _ Hrun) as (evs & Htrace & Hcases).
  rewrite (events_of_eq _ _ evs) by (by rewrite Hrun).
  destruct Hcases as [(Ho & Hw & Hr & He & _)|
    (cache & response & total & Hcache & Hget & _ & Htotal & Hevs & Hfiles & Hres)].
  - left. by repeat split.
  - right. cbn zeta in Hevs. eexists cache, response, total, _, _.
    split; [done|]. split; [done|]. split; [done|]. cbn zeta.
    split; [exact Hevs|]. cbn [fst snd].
    by destruct (resp_stream_error response).
Qed.

(** C6, as the code has it: the progress sink is called once right after
    every chunk written, with the declared size as its second argument,
    when that size is positive; when [content-length] is absent, zero or
    negative the sink is never called. *)
Theorem progress_reported_when_size_declared self info st response total :
  http_get w (st_requests st) (url info) = Ok response ->
  total_size_of rt response = Ok total ->
  let evs := events_of (download_video rt w self info) st in
  ((0 < total)%Z ->
     reported_after_each_write evs /\
     length (reported evs) = length (written evs)) /\
  ((total <= 0)%Z -> reported evs = []) /\
  (resp_content_length response = None -> reported evs = []) /\
  (forall pre d t post, evs = pre ++ EvProgress d t :: post -> t = total).
Proof.
  intros Hget Htotal. cbn zeta.
  destruct (download_video_events self info st) as
    [(Ho & Hw & Hr & _)|
     (cache & response' & total' & head & tail & _ & Hget' & Htotal' & Hrest)].
  - rewrite Hr, Hw. split; [|split; [done|split; [done|]]].
    + intros _. split; [|done]. by apply reported_after_each_write_quiet.
    + intros pre d t post Hevs. rewrite Hevs in Hr.
      by apply reported_has_progress in Hr.
  - rewrite Hget in Hget'. injection Hget' as <-.
    rewrite Htotal in Htotal'. injection Htotal' as <-.
    cbn zeta in Hrest.
    destruct Hrest as (Hevs & _ & Hwh & Hrh & _ & Hwt & Hrt & _).
    rewrite Hevs, !reported_app, !written_app, Hrh, Hrt, Hwh, Hwt, !app_nil_r.
    cbn [app].
    assert ((total <= 0)%Z ->
            reported (chunk_events total
              (format_value rt cache ++ lit "/" ++ title info ++ lit ".mp4")
              (resp_chunks response) 0) = []) as Hsilent
      by apply chunk_events_silent.
    split; [|split; [exact Hsilent|split]].
    + intros Hpos. split.
      * apply reported_after_each_write_app;
          [by apply reported_after_each_write_quiet|].
        apply reported_after_each_write_app;
          [by apply chunk_events_reported_after|
           by apply reported_after_each_write_quiet].
      * by rewrite chunk_events_reported_length, chunk_events_written.
    + intros Habsent. apply Hsilent.
      unfold total_size_of in Htotal. rewrite Habsent in Htotal.
      injection Htotal as <-. lia.
    + intros pre d t post Heq.
      apply elem_of_app_split in Heq as [(mid & Heq & _)|(mid & _ & Heq)].
      { rewrite Heq in Hrh. by apply reported_has_progress in Hrh. }
      apply elem_of_app_split in Heq as [(mid' & Heq & _)|(mid' & _ & Heq)].
      { by apply chunk_events_progress in Heq as [_ ->]. }
      rewrite Heq in Hrt. by apply reported_has_progress in Hrt.
Qed.

(** C7, as the code has it: when the declared size is positive, the body
    delivers exactly that many bytes and the download returns, the file
    holds exactly that many bytes, the values reported never decrease and
    the last one is the declared size. *)
Theorem exact_body_is_delivered_exactly self info st path st' response total :
  download_video rt w self info st = (Ok path, st') ->
  http_get w (st_requests st) (url info) = Ok response ->
  total_size_of rt response = Ok total ->
  (0 < total)%Z ->
  Z.of_nat (length (concat (resp_chunks response))) = total ->
  delivers_exactly total path st'
    (events_of (download_video rt w self info) st).
Proof.
  intros Hrun Hget Htotal Hpos Hbody.
  destruct (download_video_events self info st) as
    [(_ & _ & _ & e & He)|
     (cache & response' & total' & head & tail & _ & Hget' & Htotal' & Hrest)].
  { rewrite Hrun in He. discriminate He. }
  rewrite Hget in Hget'. injection Hget' as <-.
  rewrite Htotal in Htotal'. injection Htotal' as <-.
  cbn zeta in Hrest.
  destruct Hrest as (Hevs & _ & _ & Hrh & _ & _ & Hrt & Hfiles & Hres).
  rewrite Hrun in Hfiles, Hres. cbn [fst snd] in Hfiles, Hres.
  destruct (resp_stream_error response); [discriminate Hres|].
  injection Hres as Hpath.
  unfold delivers_exactly.
  rewrite Hevs, !reported_app, Hrh, Hrt, app_nil_r. cbn [app].
  split; [|split].
  - rewrite Hfiles, Hpath, lookup_insert_eq. cbn. f_equal. lia.
  - apply chunk_events_reported_sorted.
  - rewrite chunk_events_reported_last; [by rewrite Hbody|done|].
    intros Hnil. rewrite Hnil in Hbody. simpl in Hbody. lia.
Qed.

(** In every run of [download_video], also one that stops early, a value
    reported is the number of bytes written before the report, and no
    empty chunk is written. *)
Lemma download_video_reports self info st :
  let evs := events_of (download_video rt w self info) st in
  reports_bytes_written evs /\
  Forall (fun chunk => chunk <> []) (written evs).
Proof.
  cbn zeta.
  destruct (download_video_events self info st) as
    [(Ho & Hw & Hr & _)|
     (cache & response & total & head & tail & _ & Hget & _ & Hrest)].
  - rewrite Hw. split; [|done].
    intros pre d t post Hevs. rewrite Hevs in Hr.
    by apply reported_has_progress in Hr.
  - cbn zeta in Hrest.
    destruct Hrest as (Hevs & Hoh & Hwh & Hrh & Hot & Hwt & Hrt & Hfiles & _).
    assert (written (events_of (download_video rt w self info) st) =
            filter (fun c => nonempty c = true) (resp_chunks response))
      as Hwritten.
    { by rewrite Hevs, !written_app, Hwh, Hwt, app_nil_r, chunk_events_written. }
    split.
    + intros pre d t post Heq. rewrite Hevs in Heq.
      apply elem_of_app_split in Heq as [(mid & Heq & _)|(mid & -> & Heq)].
      { rewrite Heq in Hrh. by apply reported_has_progress in Hrh. }
      apply elem_of_app_split in Heq as [(mid' & Heq & _)|(mid' & _ & Heq)].
      * apply chunk_events_progress in Heq as [-> _].
        rewrite bytes_written_app. unfold bytes_written at 2.
        rewrite Hwh. simpl. lia.
      * rewrite Heq in Hrt. by apply reported_has_progress in Hrt.
    + rewrite Hwritten. apply Forall_forall. intros chunk Hin.
      apply list_elem_of_filter in Hin as [Hne _]. by destruct chunk.
Qed.

End Downloader.

(** ** Concrete runs *)

Section Concrete.

Import Demo.

(** The scenario of the specification: the short link, the redirect to the
    post [7123456789012345678], a page with a [video_(id)/page] block. *)
Example scenario_resolution :
  parse_share_url rt declared (__init__ share_text) start = (Ok info, resolved).
Proof. vm_compute. reflexivity. Qed.

Example scenario_download :
  (download_douyin_video rt declared share_text start).1 =
    Ok (dumps (VDict [(lit "status", VStr (lit "success"));
                      (lit "video_path", VStr file_path)])) /\
  st_files (download_douyin_video rt declared share_text start).2 !! file_path =
    Some (abc ++ de).
Proof. split; vm_compute; reflexivity. Qed.

(** After the download the finalizer leaves the file where it is. *)
Example scenario_finalizer :
  let st := (download_douyin_video rt declared share_text start).2 in
  (__del__ (__init__ share_text) st).1 = Ok tt /\
  st_files (__del__ (__init__ share_text) st).2 !! file_path = Some (abc ++ de) /\
  st_dirs (__del__ (__init__ share_text) st).2 = {[ lit "../tmp" ]}.
Proof. repeat split; vm_compute; reflexivity. Qed.

Example scenario_note_page :
  parse_share_url rt blank (__init__ share_text) start = (Ok blank_info, resolved).
Proof. vm_compute. reflexivity. Qed.

Example scenario_unknown_page :
  (parse_share_url rt (world other_text None []) (__init__ share_text) start).1 =
  Raise (Raised Exception_ MSG_NO_RECORD).
Proof. vm_compute. reflexivity. Qed.

Example scenario_no_block :
  (parse_share_url rt (world [] None []) (__init__ share_text) start).1 =
  Raise (Raised ValueError MSG_NO_ROUTER_DATA).
Proof. vm_compute. reflexivity. Qed.

Lemma no_link_no_request_witness :
  parse_share_url rt declared (__init__ (lit "今天的视频, 没有链接")) start =
    (Raise (Raised ValueError MSG_NO_LINK), start) /\
  events_of (parse_share_url rt declared (__init__ (lit "今天的视频, 没有链接")))
    start = [].
Proof.
  apply (no_link_no_request rt declared
           (__init__ (lit "今天的视频, 没有链接")) (lit "今天的视频, 没有链接") start).
  - vm_compute. reflexivity.
  - vm_compute. reflexivity.
Defined.

Lemma url_is_play_url_without_playwm_witness :
  exists vid data raw,
    locate_record rt declared (__init__ share_text) start =
      (Ok (vid, data), resolved) /\
    play_url data = Ok (VStr raw) /\
    url info = str_replace (lit "playwm") (lit "play") raw /\
    ReplacedAll (lit "playwm") (lit "play") raw (url info).
Proof.
  apply (url_is_play_url_without_playwm rt declared (__init__ share_text)
           start info resolved).
  vm_compute. reflexivity.
Defined.

Lemma title_from_desc_or_video_id_witness :
  exists vid fields,
    locate_record rt blank (__init__ share_text) start =
      (Ok (vid, VDict fields), resolved) /\
    video_id blank_info = vid /\
    match dict_get (lit "desc") fields with
    | None => title blank_info = sub_illegal (lit "douyin_" ++ vid)
    | Some (VStr d) =>
      match str_strip d with
      | [] => title blank_info = sub_illegal (lit "douyin_" ++ vid)
      | _ :: _ => title blank_info = sub_illegal (str_strip d)
      end
    | Some _ => False
    end.
Proof.
  apply (title_from_desc_or_video_id rt blank (__init__ share_text)
           start blank_info resolved).
  vm_compute. reflexivity.
Defined.

Lemma title_has_no_forbidden_character_witness :
  (forall c, c ∈ forbidden -> c ∉ title info) /\
  (exists desc, title info = sub_illegal desc) /\
  (forall p,
     p ∈ opened (events_of (download_video rt declared (__init__ share_text) info)
                   resolved) ->
     exists dir, p = dir ++ lit "/" ++ title info ++ lit ".mp4").
Proof.
  apply (title_has_no_forbidden_character rt declared (__init__ share_text)
           start info resolved).
  vm_compute. reflexivity.
Defined.


Lemma tools_error_boundary_witness :
  get_douyin_download_link rt declared (lit "no link") start =
    (Ok (json_dumps rt (VDict [
       (lit "status", VStr (lit "error"));
       (lit "error", VStr (lit "获取下载链接失败: " ++
                           exn_str rt (Raised ValueError MSG_NO_LINK)))])),
     start) /\
  parse_douyin_video_info rt declared (lit "no link") start =
    (Ok (json_dumps rt (VDict [
       (lit "status", VStr (lit "error"));
       (lit "error", VStr (exn_str rt (Raised ValueError MSG_NO_LINK)))])),
     start) /\
  download_douyin_video rt declared (lit "no link") start =
    (Raise (Raised ValueError MSG_NO_LINK), start).
Proof.
  destruct (tools_error_boundary rt declared (lit "no link") start)
    as (_ & _ & Herror & _).
  apply (Herror (Raised ValueError MSG_NO_LINK) start).
  vm_compute. reflexivity.
Defined.

Lemma progress_reported_when_size_declared_witness :
  let evs := events_of (download_video rt declared (__init__ share_text) info)
               resolved in
  ((0 < 5)%Z ->
     reported_after_each_write evs /\
     length (reported evs) = length (written evs)) /\
  ((5 <= 0)%Z -> reported evs = []) /\
  (resp_content_length (media (Some (lit "5")) [abc; []; de]) = None ->
     reported evs = []) /\
  (forall pre d t post, evs = pre ++ EvProgress d t :: post -> t = 5%Z).
Proof.
  apply (progress_reported_when_size_declared rt declared (__init__ share_text)
           info resolved (media (Some (lit "5")) [abc; []; de]) 5%Z).
  - vm_compute. reflexivity.
  - vm_compute. reflexivity.
Defined.

(** C6 as it was stated fails: with no [content-length] the chunk [abc] is
    written and the next event is the closing log line, not a report. *)
Lemma no_declared_size_no_report :
  ~ reported_after_each_write
      (events_of (download_video rt undeclared (__init__ share_text) info)
         resolved).
Proof.
  intros H.
  destruct (H [EvInfo (lit "正在下载视频: A_B Test"); EvGet (url info) true;
               EvOpen file_path]
              file_path abc
              [EvWrite file_path de; EvInfo (lit "视频下载完成: ../tmp/A_B Test.mp4")])
    as (d & t & post' & Hpost).
  - vm_compute. reflexivity.
  - discriminate Hpost.
Qed.

Lemma exact_body_is_delivered_exactly_witness :
  delivers_exactly 5 file_path
    (download_video rt declared (__init__ share_text) info resolved).2
    (events_of (download_video rt declared (__init__ share_text) info) resolved).
Proof.
  apply (exact_body_is_delivered_exactly rt declared (__init__ share_text) info
           resolved file_path _ (media (Some (lit "5")) [abc; []; de]) 5%Z).
  - vm_compute. reflexivity.
  - vm_compute. reflexivity.
  - vm_compute. reflexivity.
  - lia.
  - vm_compute. reflexivity.
Defined.

(** C7 as it was stated fails: under a declared size of twenty-three the
    body brings three bytes, the download returns, and the file holds three
    bytes. *)
Lemma short_body_not_delivered_exactly :
  ~ (forall path st' response total,
       download_video rt short (__init__ share_text) info resolved = (Ok path, st') ->
       http_get short (st_requests resolved) (url info) = Ok response ->
       total_size_of rt response = Ok total ->
       (0 < total)%Z ->
       delivers_exactly total path st'
         (events_of (download_video rt short (__init__ share_text) info) resolved)).
Proof.
  intros H.
  destruct (H file_path
              (download_video rt short (__init__ share_text) info resolved).2
              (media (Some (lit "23")) [abc]) 23%Z) as (Hlen & _).
  - vm_compute. reflexivity.
  - vm_compute. reflexivity.
  - vm_compute. reflexivity.
  - lia.
  - vm_compute in Hlen. discriminate Hlen.
Qed.

End Concrete.

(** ** More about the link pattern *)

Section LinkFacts.

Implicit Types (s text body rest pre : str) (c : char).

Lemma str_startswith_true p s :
  str_startswith p s = true <-> exists rest, s = p ++ rest.
Proof.
  split; [apply str_startswith_inv|]. intros [rest ->].
  apply str_startswith_app.
Qed.

(** A character of the classes of the pattern is printable ASCII, from
    [!] to [z]: no white space, nothing beyond ASCII. *)
Lemma url_char_range c : url_char c = true -> 33 <= c <= 122.
Proof.
  unfold url_char, in_range, one_of, ord. eval_lit.
  cbn [existsb]. unfold char_eqb.
  rewrite !orb_true_iff, !andb_true_iff, !N.leb_le, !N.eqb_eq. lia.
Qed.

Lemma url_group_head c s n :
  url_group (c :: s) = Some n -> url_char c = true.
Proof.
  unfold url_group. destruct (url_char c) eqn:Hc; [done|].
  destruct (char_eqb c (ord "%")) eqn:Hp; [|done].
  apply char_eqb_eq in Hp as ->. discriminate Hc.
Qed.

Lemma url_group_of_char c s : url_char c = true -> url_group (c :: s) = Some 1%nat.
Proof. intros Hc. unfold url_group. by rewrite Hc. Qed.

(** The body of a link is the longest run of characters of the classes. *)
Lemma url_body_cons c s :
  url_body 0 (c :: s) = if url_char c then c :: url_body 0 s else [].
Proof.
  cbn [url_body]. destruct (url_char c) eqn:Hc.
  - by rewrite (url_group_of_char c s Hc).
  - destruct (url_group (c :: s)) as [n|] eqn:Hg; [|done].
    apply url_group_head in Hg. congruence.
Qed.

Lemma url_body_chars s : Forall (fun c => url_char c = true) (url_body 0 s).
Proof.
  induction s as [|c s IH]; [constructor|].
  rewrite url_body_cons. destruct (url_char c) eqn:Hc; by constructor.
Qed.

Lemma url_body_prefix s : exists rest, s = url_body 0 s ++ rest.
Proof.
  induction s as [|c s [rest IH]]; [by exists []|].
  rewrite url_body_cons. destruct (url_char c).
  - exists rest. simpl. by rewrite <- IH.
  - by exists (c :: s).
Qed.

Lemma url_body_all s :
  Forall (fun c => url_char c = true) s -> url_body 0 s = s.
Proof.
  induction 1 as [|c s Hc _ IH]; [done|].
  by rewrite url_body_cons, Hc, IH.
Qed.

Lemma url_body_app s rest :
  Forall (fun c => url_char c = true) s ->
  url_body 0 (s ++ rest) = s ++ url_body 0 rest.
Proof.
  induction 1 as [|c s Hc _ IH]; [done|].
  cbn [app]. by rewrite url_body_cons, Hc, IH.
Qed.

(** A match anchored at the head of [s]. *)
Lemma url_match_at_Some s m :
  url_match_at s = Some m ->
  exists body rest,
    (m = lit "http://" ++ body \/ m = lit "https://" ++ body) /\
    body <> [] /\ body = url_body 0 (body ++ rest) /\ s = m ++ rest.
Proof.
  unfold url_match_at.
  destruct (str_startswith (lit "http") s) eqn:Hhttp; [|done].
  apply str_startswith_inv in Hhttp as [r ->].
  rewrite drop_app_length.
  destruct (str_startswith (lit "s") r) eqn:Hs.
  - apply str_startswith_inv in Hs as [r1 ->].
    change (drop 1 (lit "s" ++ r1)) with (drop 0 r1). rewrite drop_0.
    destruct (str_startswith (lit "://") r1) eqn:Hsep; [|done].
    apply str_startswith_inv in Hsep as [r2 ->].
    change 3%nat with (length (lit "://")). rewrite drop_app_length.
    destruct (url_body_prefix r2) as [rest Hrest].
    destruct (url_body 0 r2) as [|c body] eqn:Hbody; [done|].
    intros [= <-]. exists (c :: body), rest.
    split; [by right|]. split; [done|]. split.
    + by rewrite <- Hrest, Hbody.
    + rewrite Hrest. reflexivity.
  - destruct (str_startswith (lit "://") r) eqn:Hsep; [|done].
    apply str_startswith_inv in Hsep as [r2 ->].
    change 3%nat with (length (lit "://")). rewrite drop_app_length.
    destruct (url_body_prefix r2) as [rest Hrest].
    destruct (url_body 0 r2) as [|c body] eqn:Hbody; [done|].
    intros [= <-]. exists (c :: body), rest.
    split; [by left|]. split; [done|]. split.
    + by rewrite <- Hrest, Hbody.
    + rewrite Hrest. reflexivity.
Qed.

Lemma url_match_at_http c rest :
  url_char c = true ->
  url_match_at (lit "http://" ++ c :: rest) =
  Some (lit "http://" ++ c :: url_body 0 rest).
Proof.
  intros Hc. unfold url_match_at. eval_lit. cbn -[url_body].
  by rewrite url_body_cons, Hc.
Qed.

Lemma url_match_at_https c rest :
  url_char c = true ->
  url_match_at (lit "https://" ++ c :: rest) =
  Some (lit "https://" ++ c :: url_body 0 rest).
Proof.
  intros Hc. unfold url_match_at. eval_lit. cbn -[url_body].
  by rewrite url_body_cons, Hc.
Qed.

(** Every link found is a match anchored somewhere in the text. *)
Lemma findall_go_match skip s m :
  m ∈ findall_go skip s ->
  exists pre rest, s = pre ++ rest /\ url_match_at rest = Some m.
Proof.
  revert skip. induction s as [|c s IH]; intros skip Hin.
  - by apply elem_of_nil in Hin.
  - assert (forall k, m ∈ findall_go k s ->
              exists pre rest, c :: s = pre ++ rest /\ url_match_at rest = Some m)
      as Hlater.
    { intros k Hk. destruct (IH k Hk) as (pre & rest & -> & Hm).
      by exists (c :: pre), rest. }
    cbn [findall_go] in Hin. destruct skip as [|k]; [|by eapply Hlater].
    destruct (url_match_at (c :: s)) as [m'|] eqn:Hm; [|by eapply Hlater].
    apply elem_of_cons in Hin as [->|Hin]; [|by eapply Hlater].
    by exists [], (c :: s).
Qed.

Lemma findall_go_found pre rest m :
  url_match_at rest = Some m -> findall_go 0 (pre ++ rest) <> [].
Proof.
  intros Hm. induction pre as [|c pre IH].
  - destruct rest as [|c rest]; [done|].
    cbn [app findall_go]. by rewrite Hm.
  - cbn [app findall_go].
    by destruct (url_match_at (c :: pre ++ rest)).
Qed.

End LinkFacts.

Section LinkProperties.

(** A link found stands in the text, as a scheme followed by the longest
    run of characters of the classes that starts there. *)
Lemma findall_url_match (text u : str) :
  u ∈ findall_url text ->
  exists pre body post,
    text = pre ++ u ++ post /\
    (u = lit "http://" ++ body \/ u = lit "https://" ++ body) /\
    body <> [] /\ body = url_body 0 (body ++ post).
Proof.
  intros Hin. apply findall_go_match in Hin as (pre & rest & -> & Hm).
  apply url_match_at_Some in Hm as (body & post & Hu & Hne & Hbody & ->).
  by exists pre, body, post.
Qed.

(** X1: every link [re.findall] yields starts with [http://] or [https://],
    goes on with at least one character, is made of characters of the
    classes of the pattern only, all of them printable ASCII, and stands
    in the text. *)
Theorem links_found_are_well_formed (text u : str) :
  u ∈ findall_url text ->
  (exists body, body <> [] /\
     (u = lit "http://" ++ body \/ u = lit "https://" ++ body)) /\
  Forall (fun c => url_char c = true) u /\
  Forall (fun c => 33 <= c <= 122) u /\
  exists pre post, text = pre ++ u ++ post.
Proof.
  intros Hin.
  apply findall_url_match in Hin as (pre & body & post & -> & Hu & Hne & Hbody).
  assert (Forall (fun c => url_char c = true) u) as Hchars.
  { assert (Forall (fun c => url_char c = true) body) as Hb
      by (rewrite Hbody; apply url_body_chars).
    destruct Hu as [->| ->]; apply Forall_app; (split; [|exact Hb]);
      eval_lit; repeat constructor. }
  split; [by exists body|]. split; [exact Hchars|]. split.
  - eapply Forall_impl; [exact Hchars|]. intros c. apply url_char_range.
  - by exists pre, post.
Qed.

(** X2: the share text holds no link exactly when nowhere in it [http://] or
    [https://] is followed by a character of the classes of the pattern. *)
Theorem no_link_iff (text : str) :
  findall_url text = [] <->
  ~ exists pre c rest,
      url_char c = true /\
      (text = pre ++ lit "http://" ++ c :: rest \/
       text = pre ++ lit "https://" ++ c :: rest).
Proof.
  split.
  - intros Hnone (pre & c & rest & Hc & [-> | ->]).
    + by eapply findall_go_found; [apply (url_match_at_http c rest Hc)|].
    + by eapply findall_go_found; [apply (url_match_at_https c rest Hc)|].
  - intros Hno. destruct (findall_url text) as [|u urls] eqn:Hfound; [done|].
    exfalso. apply Hno.
    assert (u ∈ findall_url text) as Hin by (rewrite Hfound; left).
    apply findall_url_match in Hin as (pre & body & post & -> & Hu & Hne & Hbody).
    destruct body as [|c body]; [done|].
    exists pre, c, (body ++ post). split.
    + pose proof (url_body_chars ((c :: body) ++ post)) as Hchars.
      rewrite <- Hbody in Hchars. by inversion Hchars.
    + destruct Hu as [-> | ->]; [left|right]; by rewrite <- !app_assoc.
Qed.

End LinkProperties.

(** ** The identifier of a post *)

Section SegmentFacts.

Implicit Types (s a z v p : str) (c sep : char) (f : char -> bool).

Lemma str_split_nonempty sep s : str_split sep s <> [].
Proof.
  induction s as [|c s IH]; [done|]. simpl.
  destruct (char_eqb c sep); [done|]. by destruct (str_split sep s).
Qed.

Lemma str_split_pieces sep s p :
  p ∈ str_split sep s -> (sep ∉ p) /\ (forall c, c ∈ p -> c ∈ s).
Proof.
  revert p. induction s as [|c s IH]; intros p Hin.
  - apply list_elem_of_singleton in Hin as ->. split; [apply not_elem_of_nil|done].
  - simpl in Hin. destruct (char_eqb c sep) eqn:Hsep.
    + apply elem_of_cons in Hin as [->|Hin].
      * split; [apply not_elem_of_nil|]. intros x Hx. by apply elem_of_nil in Hx.
      * destruct (IH _ Hin) as [Hfree Hsub]. split; [done|].
        intros x Hx. right. by apply Hsub.
    + destruct (str_split sep s) as [|q qs] eqn:Hsplit.
      { by apply str_split_nonempty in Hsplit. }
      apply elem_of_cons in Hin as [->|Hin].
      * destruct (IH q) as [Hfree Hsub]; [left|]. split.
        -- intros Hbad. apply elem_of_cons in Hbad as [->|Hbad]; [|done].
           by rewrite char_eqb_refl in Hsep.
        -- intros x Hx. apply elem_of_cons in Hx as [->|Hx]; [left|right].
           by apply Hsub.
      * destruct (IH p) as [Hfree Hsub]; [by right|]. split; [done|].
        intros x Hx. right. by apply Hsub.
Qed.

Lemma str_first_elem (l : list str) : l <> [] -> str_first l ∈ l.
Proof. destruct l; [done|]. intros _. left. Qed.

Lemma str_last_elem (l : list str) : l <> [] -> str_last l ∈ l.
Proof.
  unfold str_last. induction l as [|x l IH]; [done|]. intros _.
  destruct l as [|y l]; [left|]. right. by apply IH.
Qed.

Lemma lstrip_by_elem f s c : c ∈ lstrip_by f s -> c ∈ s.
Proof.
  induction s as [|x s IH]; [done|]. simpl.
  destruct (f x); [|done]. intros Hin. right. by apply IH.
Qed.

Lemma elem_of_rev_iff c s : c ∈ rev s <-> c ∈ s.
Proof. rewrite !list_elem_of_In. symmetry. apply in_rev. Qed.

Lemma strip_by_elem f s c : c ∈ strip_by f s -> c ∈ s.
Proof.
  unfold strip_by, rstrip_by. rewrite elem_of_rev_iff. intros Hin.
  apply lstrip_by_elem in Hin. rewrite elem_of_rev_iff in Hin.
  by apply lstrip_by_elem in Hin.
Qed.

(** The identifier holds neither a slash nor a question mark. *)
Lemma last_segment_clean (u : str) :
  (ord "/" ∉ last_segment u) /\ (ord "?" ∉ last_segment u).
Proof.
  unfold last_segment.
  set (a := str_first (str_split (ord "?") u)).
  set (b := str_strip_chars (lit "/") a).
  destruct (str_split_pieces (ord "/") b (str_last (str_split (ord "/") b)))
    as [Hslash Hsub]; [apply str_last_elem, str_split_nonempty|].
  split; [exact Hslash|]. intros Hq.
  apply Hsub in Hq. apply strip_by_elem in Hq.
  destruct (str_split_pieces (ord "?") u a) as [Hfree _];
    [apply str_first_elem, str_split_nonempty|]. done.
Qed.

Lemma str_split_single sep v : sep ∉ v -> str_split sep v = [v].
Proof.
  induction v as [|c v IH]; [done|]. intros Hfree.
  apply not_elem_of_cons in Hfree as [Hc Hv]. simpl.
  destruct (char_eqb c sep) eqn:Hsep.
  - apply char_eqb_eq in Hsep. congruence.
  - by rewrite IH.
Qed.

Lemma str_split_snoc sep z v :
  sep ∉ v -> str_split sep (z ++ sep :: v) = str_split sep z ++ [v].
Proof.
  intros Hfree. induction z as [|c z IH].
  - simpl. by rewrite char_eqb_refl, str_split_single.
  - simpl. rewrite IH. destruct (char_eqb c sep); [done|].
    destruct (str_split sep z) as [|q qs] eqn:Hsplit; [|done].
    by apply str_split_nonempty in Hsplit.
Qed.

Lemma str_split_first sep a q :
  sep ∉ a -> str_first (str_split sep (a ++ sep :: q)) = a.
Proof.
  induction a as [|c a IH]; intros Hfree.
  - simpl. by rewrite char_eqb_refl.
  - apply not_elem_of_cons in Hfree as [Hc Ha]. simpl.
    destruct (char_eqb c sep) eqn:Hsep.
    { apply char_eqb_eq in Hsep. congruence. }
    specialize (IH Ha).
    destruct (str_split sep (a ++ sep :: q)) as [|p ps] eqn:Hsplit.
    { by apply str_split_nonempty in Hsplit. }
    simpl in *. by rewrite IH.
Qed.

Lemma lstrip_by_all f a s :
  Forall (fun c => f c = true) a -> lstrip_by f (a ++ s) = lstrip_by f s.
Proof. induction 1 as [|c a Hc _ IH]; [done|]. simpl. by rewrite Hc. Qed.

Lemma lstrip_by_stop f c s : f c = false -> lstrip_by f (c :: s) = c :: s.
Proof. intros Hc. simpl. by rewrite Hc. Qed.

Lemma rstrip_by_tail f y c a :
  f c = false -> Forall (fun x => f x = true) a ->
  rstrip_by f (y ++ c :: a) = y ++ [c].
Proof.
  intros Hc Ha. unfold rstrip_by.
  rewrite rev_app_distr. cbn [rev]. rewrite <- !app_assoc.
  rewrite lstrip_by_all by (by apply Forall_rev).
  cbn [app]. rewrite (lstrip_by_stop f c _ Hc).
  cbn [rev]. by rewrite rev_involutive.
Qed.

(** Stripping on the left keeps a text from its first character that is
    not stripped. *)
Lemma lstrip_by_before f base sep c s :
  f sep = true -> f c = false ->
  exists z, lstrip_by f (base ++ sep :: c :: s) = z ++ c :: s /\
            (z = [] \/ exists z', z = z' ++ [sep]).
Proof.
  intros Hsep Hc. induction base as [|b base (z & IH & Hz)].
  - exists []. split; [|by left]. simpl. by rewrite Hsep, Hc.
  - cbn [app lstrip_by]. destruct (f b).
    + by exists z.
    + exists (b :: base ++ [sep]). split; [|right; by exists (b :: base)].
      simpl. by rewrite <- app_assoc.
Qed.

(** The identifier taken from the address of a post is the last segment of
    its path: a query and slashes at the end do not count. *)
Lemma last_segment_of_address (base vid query : str) (k : nat) :
  vid <> [] ->
  ord "/" ∉ vid -> ord "?" ∉ vid -> ord "?" ∉ base ->
  (query = [] \/ exists q, query = ord "?" :: q) ->
  last_segment (base ++ ord "/" :: vid ++ replicate k (ord "/") ++ query) = vid.
Proof.
  intros Hne Hslash Hq Hbase Hquery. unfold last_segment.
  set (a := base ++ ord "/" :: vid ++ replicate k (ord "/")).
  assert (ord "?" ∉ a) as Ha.
  { unfold a. rewrite elem_of_app, elem_of_cons, elem_of_app.
    intros [?|[?|[?|Hrep]]]; try done.
    apply elem_of_replicate in Hrep as [? _]. done. }
  assert (str_first (str_split (ord "?")
            (base ++ ord "/" :: vid ++ replicate k (ord "/") ++ query)) = a)
    as ->.
  { destruct Hquery as [->|[q ->]].
    - rewrite app_nil_r. fold a. by rewrite str_split_single.
    - replace (base ++ ord "/" :: vid ++ replicate k (ord "/") ++ ord "?" :: q)
        with (a ++ ord "?" :: q).
      + by apply str_split_first.
      + unfold a. by rewrite <- !app_assoc, <- !app_comm_cons, <- !app_assoc. }
  set (f := fun c => existsb (char_eqb c) (lit "/")).
  assert (f (ord "/") = true) as Hf by done.
  assert (forall c, c ∈ vid -> f c = false) as Hvid.
  { intros c Hc. unfold f. eval_lit. cbn [existsb]. rewrite orb_false_r.
    destruct (char_eqb c 47) eqn:Heq; [|done].
    apply char_eqb_eq in Heq as ->. done. }
  destruct vid as [|v0 vid']; [done|].
  destruct (exists_last Hne) as (vinit & vl & Hlast).
  destruct (lstrip_by_before f base (ord "/") v0
              (vid' ++ replicate k (ord "/")) Hf) as (z & Hz & Hzform).
  { apply Hvid. left. }
  assert (str_strip_chars (lit "/") a = z ++ v0 :: vid') as ->.
  { unfold str_strip_chars, strip_by. fold f. unfold a.
    cbn [app] in Hz |- *. rewrite Hz.
    replace (z ++ v0 :: vid' ++ replicate k (ord "/"))
      with ((z ++ vinit) ++ vl :: replicate k (ord "/")).
    - rewrite rstrip_by_tail.
      + by rewrite <- app_assoc, <- Hlast.
      + apply Hvid. rewrite Hlast. apply elem_of_app. right. left.
      + apply Forall_replicate. exact Hf.
    - rewrite <- app_assoc. f_equal.
      change (v0 :: vid' ++ replicate k (ord "/"))
        with ((v0 :: vid') ++ replicate k (ord "/")).
      rewrite Hlast, <- app_assoc. done. }
  destruct Hzform as [->|[z' ->]].
  - cbn [app]. by rewrite str_split_single.
  - rewrite <- app_assoc. cbn [app]. rewrite str_split_snoc by done.
    unfold str_last. apply last_last.
Qed.

End SegmentFacts.

(** ** The requests of the resolver *)

Section ResolverRuns.

Context (rt : Runtime) (w : World).

(** The first stage of [parse_share_url], step by step, once a link has
    been found. *)
Lemma load_router_data_run self st text u urls :
  self !! "share_link" = Some (VStr text) ->
  findall_url text = u :: urls ->
  load_router_data rt w self st =
  match http_get w (st_requests st) u with
  | Raise e => (Raise e, after_requests [EvGet u false] st)
  | Ok r1 =>
    let vid := last_segment (resp_url r1) in
    let st2 := after_requests
                 [EvGet u false; EvGet (page_prefix ++ vid) false] st in
    match http_get w (S (st_requests st)) (page_prefix ++ vid) with
    | Raise e => (Raise e, st2)
    | Ok r2 =>
      match resp_status_error r2 with
      | Some e => (Raise e, st2)
      | None =>
        match router_search (resp_text r2) with
        | None | Some [] => (Raise (Raised ValueError MSG_NO_ROUTER_DATA), st2)
        | Some group1 =>
          match json_loads rt (str_strip group1) with
          | Ok json_data => (Ok (vid, json_data), st2)
          | Raise e => (Raise e, st2)
          end
        end
      end
    end
  end.
Proof.
  intros Hattr Hfound. unfold load_router_data, getattr.
  rewrite M_bind_run, Hattr. unfold lift at 1. rewrite Hfound.
  rewrite M_bind_run. unfold requests_get at 1.
  assert (forall (A : Type) (r : result A) n evs1 evs2,
            n = (st_requests st + length evs2)%nat ->
            evs1 = st_trace st ++ evs2 ->
            (r, {| st_requests := n; st_trace := evs1;
                   st_dirs := st_dirs st; st_files := st_files st |}) =
            (r, after_requests evs2 st)) as Hstate
    by (by intros A r n evs1 evs2 -> ->).
  destruct (http_get w (st_requests st) u) as [r1|e].
  2:{ apply Hstate; [simpl; lia|done]. }
  rewrite M_bind_run. unfold requests_get at 1.
  cbn [st_requests st_trace st_dirs st_files]. cbn zeta. unfold page_prefix.
  destruct (http_get w (S (st_requests st)) _) as [r2|e].
  2:{ apply Hstate; [simpl; lia|by rewrite <- app_assoc]. }
  rewrite M_bind_run. unfold raise_for_status.
  destruct (resp_status_error r2) as [e|].
  { apply Hstate; [simpl; lia|by rewrite <- app_assoc]. }
  cbn [mret M_ret].
  destruct (router_search (resp_text r2)) as [[|c group1]|].
  - apply Hstate; [simpl; lia|by rewrite <- app_assoc].
  - rewrite M_bind_run. unfold lift.
    destruct (json_loads rt (str_strip (c :: group1)));
      (apply Hstate; [simpl; lia|by rewrite <- app_assoc]).
  - apply Hstate; [simpl; lia|by rewrite <- app_assoc].
Qed.

(** The later stages of [parse_share_url] leave the state alone. *)
Lemma parse_share_url_state self st :
  (parse_share_url rt w self st).2 = (load_router_data rt w self st).2.
Proof.
  unfold parse_share_url, locate_record. rewrite !M_bind_run.
  destruct (load_router_data rt w self st) as [[[vid json_data]|e] st1]; [|done].
  rewrite !M_bind_run. unfold lift.
  destruct (select_video_info json_data) as [ovi|e]; [|done].
  rewrite !M_bind_run.
  destruct (getitem ovi (lit "item_list")) as [item_list|e]; [|done].
  rewrite !M_bind_run.
  destruct (getitem0 item_list) as [data|e]; [|done].
  cbn [mret M_ret]. by destruct (make_video_info vid data).
Qed.

Lemma parse_share_url_early self st e st1 :
  load_router_data rt w self st = (Raise e, st1) ->
  parse_share_url rt w self st = (Raise e, st1).
Proof.
  intros Hload. unfold parse_share_url, locate_record.
  by rewrite !M_bind_run, Hload.
Qed.

End ResolverRuns.

Section ResolverProperties.

Context (rt : Runtime) (w : World).

(** X3: of the links in the share text only the first is requested. If that
    request fails, its exception is the outcome; if it returns, exactly one
    more request follows, to the page of the identifier read off the final
    address of the first, and nothing else happens to the state. *)
Theorem resolver_requests self st text u urls :
  self !! "share_link" = Some (VStr text) ->
  findall_url text = u :: urls ->
  match http_get w (st_requests st) u with
  | Raise e =>
    parse_share_url rt w self st =
    (Raise e, after_requests [EvGet u false] st)
  | Ok r1 =>
    (parse_share_url rt w self st).2 =
    after_requests
      [EvGet u false;
       EvGet (page_prefix ++ last_segment (resp_url r1)) false] st
  end.
Proof.
  intros Hattr Hfound.
  pose proof (load_router_data_run rt w self st text u urls Hattr Hfound)
    as Hrun.
  destruct (http_get w (st_requests st) u) as [r1|e].
  - rewrite parse_share_url_state, Hrun. cbn zeta.
    destruct (http_get w (S (st_requests st)) _) as [r2|e]; [|done].
    destruct (resp_status_error r2); [done|].
    destruct (router_search (resp_text r2)) as [[|c group1]|]; [done| |done].
    by destruct (json_loads rt (str_strip (c :: group1))).
  - by apply parse_share_url_early.
Qed.

(** X4: the status of the first answer is never looked at: the resolution runs
    the same whatever [raise_for_status()] would do on it. *)
Theorem first_status_is_ignored self st x :
  parse_share_url rt (status_at (st_requests st) x w) self st =
  parse_share_url rt w self st.
Proof.
  assert (load_router_data rt (status_at (st_requests st) x w) self st =
          load_router_data rt w self st) as Hload.
  { destruct (self !! "share_link") as [link|] eqn:Hattr.
    2:{ unfold load_router_data, getattr. by rewrite !M_bind_run, Hattr. }
    destruct link as [| | | |text| | |];
      try (unfold load_router_data, getattr; by rewrite !M_bind_run, Hattr).
    destruct (findall_url text) as [|u urls] eqn:Hfound.
    { unfold load_router_data, getattr.
      rewrite !M_bind_run, Hattr. unfold lift. by rewrite Hfound. }
    rewrite (load_router_data_run rt w self st text u urls Hattr Hfound).
    rewrite (load_router_data_run rt (status_at (st_requests st) x w)
               self st text u urls Hattr Hfound).
    cbn [http_get status_at]. rewrite Nat.eqb_refl.
    assert (Nat.eqb (S (st_requests st)) (st_requests st) = false) as ->
      by (apply Nat.eqb_neq; lia).
    by destruct (http_get w (st_requests st) u). }
  unfold parse_share_url, locate_record. by rewrite !M_bind_run, Hload.
Qed.

(** X8: an empty list of records: [item_list[0]] raises [IndexError], which is
    the outcome of the resolution and what the tools report. *)
Theorem empty_item_list_is_index_error share_link st vid json_data st' ovi :
  load_router_data rt w (__init__ share_link) st = (Ok (vid, json_data), st') ->
  select_video_info json_data = Ok ovi ->
  getitem ovi (lit "item_list") = Ok (VList []) ->
  parse_share_url rt w (__init__ share_link) st =
    (Raise (Faulted (OutOfRange (VList []))), st') /\
  class_of (Faulted (OutOfRange (VList []))) = IndexError /\
  parse_douyin_video_info rt w share_link st =
    (Ok (json_dumps rt (VDict [
       (lit "status", VStr (lit "error"));
       (lit "error", VStr (fault_str rt (OutOfRange (VList []))))])),
     st').
Proof.
  intros Hload Hselect Hitems.
  assert (parse_share_url rt w (__init__ share_link) st =
          (Raise (Faulted (OutOfRange (VList []))), st')) as Hrun.
  { unfold parse_share_url, locate_record.
    rewrite !M_bind_run, Hload. unfold lift.
    by rewrite Hselect, !M_bind_run, Hitems. }
  split; [exact Hrun|]. split; [done|].
  unfold parse_douyin_video_info, try_except. cbn zeta.
  by rewrite M_bind_run, Hrun.
Qed.

End ResolverProperties.

(** ** More about the address and the title *)

Section TextFacts.

Implicit Types (s old new pre rest t d : str) (c : char) (f : char -> bool).

Lemma str_contains_occurrence old pre rest :
  str_contains old (pre ++ old ++ rest) = true.
Proof.
  induction pre as [|c pre IH].
  - destruct (old ++ rest) as [|c s] eqn:Heq.
    + apply app_eq_nil in Heq as [-> _]. done.
    + rewrite <- Heq. destruct (old ++ rest) eqn:Heq'; [done|].
      rewrite <- Heq'. cbn [str_contains app].
      rewrite Heq'. rewrite str_contains_cons, <- Heq'.
      by rewrite str_startswith_app.
  - cbn [app]. rewrite str_contains_cons, IH. apply orb_true_r.
Qed.

Lemma ReplacedAll_length old new s t :
  (length new <= length old)%nat ->
  ReplacedAll old new s t -> (length t <= length s)%nat.
Proof.
  intros Hlen. induction 1 as [s _|pre rest t _ _ IH]; [done|].
  rewrite !length_app. lia.
Qed.

(** With a replacement shorter than what it replaces, a text comes back
    unchanged exactly when it holds no occurrence. *)
Lemma ReplacedAll_same old new s t :
  (length new < length old)%nat ->
  ReplacedAll old new s t ->
  (t = s <-> str_contains old s = false).
Proof.
  intros Hlen. destruct 1 as [s Hnone|pre rest t Hfree Hrest].
  - done.
  - rewrite str_contains_occurrence. split; [|done]. intros Heq.
    apply (f_equal length) in Heq. rewrite !length_app in Heq.
    apply ReplacedAll_length in Hrest; lia.
Qed.

Lemma illegal_char_iff c : illegal_char c = true <-> c ∈ forbidden.
Proof.
  split; [|apply illegal_char_forbidden].
  unfold illegal_char, one_of, forbidden, ord. eval_lit.
  cbn [existsb]. unfold char_eqb.
  rewrite !orb_true_iff, !N.eqb_eq, !elem_of_cons, elem_of_nil.
  intros H. intuition discriminate.
Qed.

Lemma rev_reverse s : rev s = reverse s.
Proof. unfold reverse. apply rev_alt. Qed.

Lemma lstrip_by_nil f s : lstrip_by f s = [] <-> forallb f s = true.
Proof.
  induction s as [|c s IH]; [done|]. simpl. by destruct (f c).
Qed.

Lemma lstrip_by_head f s c : head (lstrip_by f s) = Some c -> f c = false.
Proof.
  induction s as [|x s IH]; [done|]. simpl.
  destruct (f x) eqn:Hx; [done|]. by intros [= <-].
Qed.

Lemma lstrip_by_last f s :
  lstrip_by f s <> [] -> last (lstrip_by f s) = last s.
Proof.
  induction s as [|x s IH]; [done|]. simpl.
  destruct (f x); [|done]. intros Hne. rewrite IH by done.
  rewrite last_cons. destruct (last s) eqn:Hlast; [done|].
  apply last_None in Hlast as ->. done.
Qed.

Lemma forallb_rev f s : forallb f (rev s) = forallb f s.
Proof.
  induction s as [|c s IH]; [done|]. simpl.
  rewrite forallb_app, IH. simpl. rewrite andb_true_r. apply andb_comm.
Qed.

(** Stripping leaves nothing exactly when every character is stripped. *)
Lemma strip_by_nil f s : strip_by f s = [] <-> forallb f s = true.
Proof.
  unfold strip_by, rstrip_by. split.
  - intros Hnil. apply (f_equal (@rev N)) in Hnil.
    rewrite rev_involutive in Hnil. cbn [rev] in Hnil.
    apply lstrip_by_nil in Hnil. rewrite forallb_rev in Hnil.
    destruct (lstrip_by f s) as [|c r] eqn:Hleft; [by apply lstrip_by_nil|].
    assert (f c = false) as Hc by (apply (lstrip_by_head f s); by rewrite Hleft).
    simpl in Hnil. by rewrite Hc in Hnil.
  - intros Hall. apply lstrip_by_nil in Hall. by rewrite Hall.
Qed.

(** What stripping leaves neither starts nor ends with a stripped
    character. *)
Lemma strip_by_ends f s c :
  head (strip_by f s) = Some c \/ last (strip_by f s) = Some c -> f c = false.
Proof.
  unfold strip_by, rstrip_by. rewrite rev_reverse, head_reverse, last_reverse.
  intros [Hlast|Hhead].
  - destruct (decide (lstrip_by f (rev (lstrip_by f s)) = [])) as [Hnil|Hne].
    { by rewrite Hnil in Hlast. }
    rewrite lstrip_by_last in Hlast by done.
    rewrite rev_reverse, last_reverse in Hlast.
    by apply lstrip_by_head in Hlast.
  - by apply lstrip_by_head in Hhead.
Qed.

Lemma sub_illegal_length s : length (sub_illegal s) = length s.
Proof. unfold sub_illegal. apply length_map. Qed.

Lemma sub_illegal_head s c :
  head (sub_illegal s) = Some c ->
  exists x, head s = Some x /\ c = if illegal_char x then ord "_" else x.
Proof. destruct s as [|x s]; [done|]. intros [= <-]. by exists x. Qed.

Lemma sub_illegal_last s c :
  last (sub_illegal s) = Some c ->
  exists x, last s = Some x /\ c = if illegal_char x then ord "_" else x.
Proof.
  unfold sub_illegal. intros Hlast.
  apply last_Some in Hlast as [l' Hl'].
  destruct (exists_last (l:=s)) as (s' & x & ->).
  { intros ->. by destruct l'. }
  rewrite map_app in Hl'. simpl in Hl'.
  apply app_inj_tail in Hl' as [_ <-].
  exists x. by rewrite last_snoc.
Qed.

End TextFacts.

Section TextProperties.

Context (rt : Runtime) (w : World).

(** X9: the address returned differs from the one in the record exactly when
    that one holds [playwm], and it is never longer. *)
Theorem url_changes_iff_playwm self st info st' :
  parse_share_url rt w self st = (Ok info, st') ->
  exists vid data raw,
    locate_record rt w self st = (Ok (vid, data), st') /\
    play_url data = Ok (VStr raw) /\
    (url info = raw <-> str_contains (lit "playwm") raw = false) /\
    (length (url info) <= length raw)%nat.
Proof.
  intros Hrun.
  apply parse_share_url_Ok in Hrun as (vid & data & Hloc & Hmake).
  apply make_video_info_Ok in Hmake as (raw & d & Hraw & _ & ->).
  exists vid, data, raw. split; [done|]. split; [done|]. cbn [url].
  assert (ReplacedAll (lit "playwm") (lit "play") raw
            (str_replace (lit "playwm") (lit "play") raw)) as Hall
    by (by apply str_replace_all).
  split.
  - apply (ReplacedAll_same (lit "playwm") (lit "play")); [|exact Hall].
    vm_compute. lia.
  - apply (ReplacedAll_length (lit "playwm") (lit "play")); [|exact Hall].
    vm_compute. lia.
Qed.

(** X10: the replacement of the characters a file name must not hold keeps the
    length of the text and every other character in its place, changes
    nothing when applied again, and leaves a text as it is exactly when the
    text holds none of the nine characters. *)
Theorem sub_illegal_properties (s : str) :
  length (sub_illegal s) = length s /\
  (forall i c, s !! i = Some c ->
     sub_illegal s !! i =
     Some (if bool_decide (c ∈ forbidden) then ord "_" else c)) /\
  sub_illegal (sub_illegal s) = sub_illegal s /\
  (sub_illegal s = s <-> forall c, c ∈ forbidden -> c ∉ s).
Proof.
  split; [apply sub_illegal_length|]. split; [|split].
  - intros i c Hi. unfold sub_illegal.
    rewrite list_lookup_fmap, Hi. cbn. f_equal.
    destruct (illegal_char c) eqn:Hc.
    + apply illegal_char_iff in Hc. by rewrite bool_decide_true.
    + rewrite bool_decide_false; [done|].
      intros Hin. apply illegal_char_iff in Hin. congruence.
  - induction s as [|c s IH]; [done|]. simpl. rewrite IH. f_equal.
    destruct (illegal_char c) eqn:Hc; [done|]. by rewrite Hc.
  - split.
    + intros Hsame c Hc. rewrite <- Hsame. by apply sub_illegal_clean.
    + intros Hclean. induction s as [|c s IH]; [done|]. simpl.
      rewrite IH.
      * destruct (illegal_char c) eqn:Hc; [|done].
        apply illegal_char_iff in Hc. exfalso. apply (Hclean c Hc). left.
      * intros x Hx Hin. apply (Hclean x Hx). by right.
Qed.

(** X11: the title is never empty. When [desc] is absent or made of white
    space only, it is the sanitized default built on the identifier; when
    [desc] holds anything else, it is the sanitized stripped [desc], as long
    as the stripped [desc], and neither starts nor ends with white space.
    The title alone does not tell the two cases apart: a [desc] that spells
    the default gives the same title. *)
Theorem title_shape self st info st' :
  parse_share_url rt w self st = (Ok info, st') ->
  title info <> [] /\
  exists vid fields,
    locate_record rt w self st = (Ok (vid, VDict fields), st') /\
    match dict_get (lit "desc") fields with
    | None => title info = sub_illegal (lit "douyin_" ++ vid)
    | Some (VStr d) =>
      if forallb py_isspace d
      then title info = sub_illegal (lit "douyin_" ++ vid)
      else title info = sub_illegal (str_strip d) /\
           length (title info) = length (str_strip d) /\
           forall c, head (title info) = Some c \/ last (title info) = Some c ->
                     py_isspace c = false
    | Some _ => False
    end.
Proof.
  intros Hrun.
  apply parse_share_url_Ok in Hrun as (vid & data & Hloc & Hmake).
  apply make_video_info_Ok in Hmake as (raw & d & _ & Hdesc & ->).
  destruct data; try discriminate Hdesc. cbn [py_get] in Hdesc. cbn [title].
  split.
  - intros Hnil. apply (f_equal length) in Hnil.
    rewrite sub_illegal_length in Hnil.
    destruct (str_strip d) as [|c r]; [|done].
    rewrite length_app in Hnil. vm_compute in Hnil. lia.
  - exists vid, fields. split; [done|].
    assert (forall d0, VStr d0 = VStr d ->
      if forallb py_isspace d0
      then sub_illegal match str_strip d with
                       | [] => lit "douyin_" ++ vid
                       | _ :: _ => str_strip d
                       end = sub_illegal (lit "douyin_" ++ vid)
      else sub_illegal match str_strip d with
                       | [] => lit "douyin_" ++ vid
                       | _ :: _ => str_strip d
                       end = sub_illegal (str_strip d0) /\
           length (sub_illegal match str_strip d with
                               | [] => lit "douyin_" ++ vid
                               | _ :: _ => str_strip d
                               end) = length (str_strip d0) /\
           forall c,
             head (sub_illegal match str_strip d with
                               | [] => lit "douyin_" ++ vid
                               | _ :: _ => str_strip d
                               end) = Some c \/
             last (sub_illegal match str_strip d with
                               | [] => lit "douyin_" ++ vid
                               | _ :: _ => str_strip d
                               end) = Some c ->
             py_isspace c = false) as Hstring.
    { intros d0 [= ->].
      destruct (forallb py_isspace d) eqn:Hblank.
      - apply strip_by_nil in Hblank. unfold str_strip. by rewrite Hblank.
      - destruct (str_strip d) as [|c0 r] eqn:Hstrip.
        { apply strip_by_nil in Hstrip. congruence. }
        split; [done|]. split; [apply sub_illegal_length|].
        intros c [Hc|Hc].
        + apply sub_illegal_head in Hc as (x & Hx & ->).
          assert (py_isspace x = false) as Hspace.
          { apply (strip_by_ends py_isspace d). left.
            fold (str_strip d). by rewrite Hstrip. }
          by destruct (illegal_char x).
        + apply sub_illegal_last in Hc as (x & Hx & ->).
          assert (py_isspace x = false) as Hspace.
          { apply (strip_by_ends py_isspace d). right.
            fold (str_strip d). by rewrite Hstrip. }
          by destruct (illegal_char x). }
    destruct (dict_get (lit "desc") fields) as [v|].
    + injection Hdesc as ->. by apply Hstring.
    + by injection Hdesc as <-.
Qed.

End TextProperties.

(** ** The identifier in the result, and the resource *)

Section IdentifierFacts.

Context (rt : Runtime) (w : World).

(** A resolution that succeeds found a link and got an answer to its first
    request; the identifier comes from the final address of that answer,
    and the second request went to the page of that identifier. *)
Lemma parse_share_url_video_id self st info st' :
  parse_share_url rt w self st = (Ok info, st') ->
  exists text u urls r1,
    self !! "share_link" = Some (VStr text) /\
    findall_url text = u :: urls /\
    http_get w (st_requests st) u = Ok r1 /\
    video_id info = last_segment (resp_url r1) /\
    st' = after_requests
            [EvGet u false; EvGet (page_prefix ++ video_id info) false] st.
Proof.
  intros Hrun.
  pose proof (parse_share_url_state rt w self st) as Hstate.
  rewrite Hrun in Hstate. cbn [snd] in Hstate.
  apply parse_share_url_Ok in Hrun as (vid & data & Hloc & Hmake).
  apply make_video_info_Ok in Hmake as (raw & d & _ & _ & ->). cbn [video_id].
  unfold locate_record in Hloc.
  apply M_bind_Ok in Hloc as ([vid' json_data] & st1 & Hload & Hloc).
  assert (vid' = vid) as ->.
  { repeat (apply M_bind_Ok in Hloc as (? & ? & _ & Hloc)).
    by injection Hloc as -> _. }
  rewrite Hload in Hstate. cbn [snd] in Hstate. subst st1.
  destruct (self !! "share_link") as [link|] eqn:Hattr.
  2:{ unfold load_router_data, getattr in Hload.
      by rewrite !M_bind_run, Hattr in Hload. }
  destruct link as [| | | |text| | |];
    try (unfold load_router_data, getattr in Hload;
         by rewrite !M_bind_run, Hattr in Hload).
  destruct (findall_url text) as [|u urls] eqn:Hfound.
  { unfold load_router_data, getattr in Hload.
    rewrite !M_bind_run, Hattr in Hload. unfold lift in Hload.
    by rewrite Hfound in Hload. }
  rewrite (load_router_data_run rt w self st text u urls Hattr Hfound) in Hload.
  destruct (http_get w (st_requests st) u) as [r1|e] eqn:Hget; [|done].
  exists text, u, urls, r1. cbn zeta in Hload.
  destruct (http_get w (S (st_requests st)) _) as [r2|e]; [|done].
  destruct (resp_status_error r2); [done|].
  destruct (router_search (resp_text r2)) as [[|c group1]|]; [done| |done].
  destruct (json_loads rt (str_strip (c :: group1))); [|done].
  injection Hload as <- _ <-. by repeat split.
Qed.

(** [re.findall] on the address the resource builds: the first link is
    that address, up to the first character of the identifier that is not
    of the classes of the pattern. *)
Lemma findall_url_page (vid : str) :
  exists urls,
    findall_url (page_prefix ++ vid) = (page_prefix ++ url_body 0 vid) :: urls.
Proof.
  unfold findall_url.
  set (tail_ := lit "ww.iesdouyin.com/share/video/").
  assert (page_prefix ++ vid = lit "https://" ++ 119 :: tail_ ++ vid) as Heq
    by (vm_compute; reflexivity).
  assert (url_match_at (page_prefix ++ vid) =
          Some (page_prefix ++ url_body 0 vid)) as Hm.
  { rewrite Heq, url_match_at_https by (vm_compute; reflexivity).
    rewrite url_body_app; [unfold tail_, page_prefix; eval_lit; reflexivity|].
    unfold tail_. eval_lit. repeat constructor. }
  destruct (page_prefix ++ vid) as [|c s] eqn:Hs; [done|].
  cbn [findall_go]. rewrite Hm. by eexists.
Qed.

(** The resource is the resolution on the address it builds, with both
    outcomes turned into a text. *)
Lemma get_video_info_run (vid : str) st :
  get_video_info rt w vid st =
  match parse_share_url rt w (__init__ (page_prefix ++ vid)) st with
  | (Ok info, st1) => (Ok (json_dumps rt (video_info_dict info)), st1)
  | (Raise e, st1) => (Ok (lit "获取视频信息失败: " ++ exn_str rt e), st1)
  end.
Proof.
  unfold get_video_info, try_except, page_prefix.
  rewrite M_bind_run.
  by destruct (parse_share_url rt w _ st) as [[info|e] st1].
Qed.

End IdentifierFacts.

Section IdentifierProperties.

Context (rt : Runtime) (w : World).

(** X5: the identifier in a result holds neither a slash nor a question mark,
    and the page requested last is the fixed address followed by it. *)
Theorem identifier_is_one_segment self st info st' :
  parse_share_url rt w self st = (Ok info, st') ->
  (ord "/" ∉ video_id info) /\ (ord "?" ∉ video_id info) /\
  exists u,
    st_trace st' =
    st_trace st ++ [EvGet u false; EvGet (page_prefix ++ video_id info) false].
Proof.
  intros Hrun.
  apply parse_share_url_video_id in Hrun
    as (text & u & urls & r1 & _ & _ & _ & Hvid & ->).
  rewrite Hvid. destruct (last_segment_clean (resp_url r1)) as [Hs Hq].
  split; [done|]. split; [done|]. by exists u.
Qed.

(** X6: when the first request ends at an address of the form
    [base/identifier], with slashes or a query after it or not, the page of
    that identifier is requested next and the result carries it. *)
Theorem identifier_from_final_address self st text u urls r1
    (base vid query : str) (k : nat) :
  self !! "share_link" = Some (VStr text) ->
  findall_url text = u :: urls ->
  http_get w (st_requests st) u = Ok r1 ->
  resp_url r1 = base ++ ord "/" :: vid ++ replicate k (ord "/") ++ query ->
  vid <> [] -> ord "/" ∉ vid -> ord "?" ∉ vid -> ord "?" ∉ base ->
  (query = [] \/ exists q, query = ord "?" :: q) ->
  (parse_share_url rt w self st).2 =
    after_requests [EvGet u false; EvGet (page_prefix ++ vid) false] st /\
  (forall info st',
     parse_share_url rt w self st = (Ok info, st') -> video_id info = vid).
Proof.
  intros Hattr Hfound Hget Hurl Hne Hslash Hq Hbase Hquery.
  assert (last_segment (resp_url r1) = vid) as Hseg
    by (rewrite Hurl; by apply last_segment_of_address).
  split.
  - rewrite parse_share_url_state.
    rewrite (load_router_data_run rt w self st text u urls Hattr Hfound).
    rewrite Hget. cbn zeta. rewrite Hseg.
    destruct (http_get w (S (st_requests st)) _) as [r2|e]; [|done].
    destruct (resp_status_error r2); [done|].
    destruct (router_search (resp_text r2)) as [[|c group1]|]; [done| |done].
    by destruct (json_loads rt (str_strip (c :: group1))).
  - intros info st' Hrun.
    apply parse_share_url_video_id in Hrun
      as (text' & u' & urls' & r1' & Hattr' & Hfound' & Hget' & Hvid & _).
    rewrite Hattr in Hattr'. injection Hattr' as <-.
    rewrite Hfound in Hfound'. injection Hfound' as <- <-.
    rewrite Hget in Hget'. injection Hget' as <-.
    by rewrite Hvid.
Qed.

(** X13: the resource never raises and never fails for want of a link: it
    always issues a first request, to the fixed address followed by the
    identifier up to its first character outside the classes of the link
    pattern. It touches no file. Its answer is the text of the dictionary
    on success and a plain message carrying [str(e)] otherwise. *)
Theorem resource_always_requests (vid : str) st :
  exists out evs,
    get_video_info rt w vid st =
      (Ok out, after_requests (EvGet (page_prefix ++ url_body 0 vid) false :: evs) st) /\
    match parse_share_url rt w (__init__ (page_prefix ++ vid)) st with
    | (Ok info, _) => out = json_dumps rt (video_info_dict info)
    | (Raise e, _) => out = lit "获取视频信息失败: " ++ exn_str rt e
    end.
Proof.
  destruct (findall_url_page vid) as [urls Hfound].
  assert (__init__ (page_prefix ++ vid) !! "share_link" =
          Some (VStr (page_prefix ++ vid))) as Hattr
    by (unfold __init__; apply lookup_insert_eq).
  pose proof (parse_share_url_state rt w (__init__ (page_prefix ++ vid)) st)
    as Hstate.
  rewrite (load_router_data_run rt w _ st _ _ urls Hattr Hfound) in Hstate.
  rewrite get_video_info_run.
  destruct (parse_share_url rt w (__init__ (page_prefix ++ vid)) st)
    as [[info|e] st1].
  - cbn [mret M_ret snd] in *. rewrite Hstate.
    destruct (http_get w (st_requests st) _) as [r1|e]; [|by eexists _, _].
    cbn zeta.
    destruct (http_get w (S (st_requests st)) _) as [r2|e]; [|by eexists _, _].
    destruct (resp_status_error r2); [by eexists _, _|].
    destruct (router_search (resp_text r2)) as [[|c group1]|];
      [by eexists _, _| |by eexists _, _].
    destruct (json_loads rt (str_strip (c :: group1))); by eexists _, _.
  - cbn [mret M_ret snd] in *. rewrite Hstate.
    destruct (http_get w (st_requests st) _) as [r1|e0]; [|by eexists _, _].
    cbn zeta.
    destruct (http_get w (S (st_requests st)) _) as [r2|e0]; [|by eexists _, _].
    destruct (resp_status_error r2); [by eexists _, _|].
    destruct (router_search (resp_text r2)) as [[|c group1]|];
      [by eexists _, _| |by eexists _, _].
    destruct (json_loads rt (str_strip (c :: group1))); by eexists _, _.
Qed.

(** X14: the resource on an identifier that is one path segment made of
    characters of the link pattern, when the site answers under the address
    requested: the same page is requested twice, and a result carries the
    identifier given. *)
Theorem resource_round_trip (vid query : str) (k : nat) st r1 :
  vid <> [] ->
  Forall (fun c => url_char c = true) vid ->
  ord "/" ∉ vid -> ord "?" ∉ vid ->
  http_get w (st_requests st) (page_prefix ++ vid) = Ok r1 ->
  resp_url r1 = page_prefix ++ vid ++ replicate k (ord "/") ++ query ->
  (query = [] \/ exists q, query = ord "?" :: q) ->
  (get_video_info rt w vid st).2 =
    after_requests [EvGet (page_prefix ++ vid) false;
                    EvGet (page_prefix ++ vid) false] st /\
  (forall info st',
     parse_share_url rt w (__init__ (page_prefix ++ vid)) st = (Ok info, st') ->
     video_id info = vid /\
     (get_video_info rt w vid st).1 = Ok (json_dumps rt (video_info_dict info))).
Proof.
  intros Hne Hchars Hslash Hq Hget Hurl Hquery.
  destruct (findall_url_page vid) as [urls Hfound].
  rewrite (url_body_all vid Hchars) in Hfound.
  assert (__init__ (page_prefix ++ vid) !! "share_link" =
          Some (VStr (page_prefix ++ vid))) as Hattr
    by (unfold __init__; apply lookup_insert_eq).
  assert (last_segment (resp_url r1) = vid) as Hseg.
  { rewrite Hurl.
    apply (last_segment_of_address
             (lit "https://www.iesdouyin.com/share/video") vid query k);
      try done.
    eval_lit. rewrite !elem_of_cons, elem_of_nil. intros H.
    destruct_or!; done. }
  assert ((get_video_info rt w vid st).2 =
          (parse_share_url rt w (__init__ (page_prefix ++ vid)) st).2) as Htool.
  { rewrite get_video_info_run.
    by destruct (parse_share_url rt w (__init__ (page_prefix ++ vid)) st)
      as [[info|e] st1]. }
  split.
  - rewrite Htool, parse_share_url_state.
    rewrite (load_router_data_run rt w _ st _ _ urls Hattr Hfound).
    rewrite Hget. cbn zeta. rewrite Hseg.
    destruct (http_get w (S (st_requests st)) _) as [r2|e]; [|done].
    destruct (resp_status_error r2); [done|].
    destruct (router_search (resp_text r2)) as [[|c group1]|]; [done| |done].
    by destruct (json_loads rt (str_strip (c :: group1))).
  - intros info st' Hrun. split.
    + apply parse_share_url_video_id in Hrun
        as (text' & u' & urls' & r1' & Hattr' & Hfound' & Hget' & Hvid & _).
      rewrite Hattr in Hattr'.
      assert (text' = page_prefix ++ vid) as -> by congruence.
      rewrite Hfound in Hfound'.
      assert (u' = page_prefix ++ vid) as -> by congruence.
      rewrite Hget in Hget'. assert (r1' = r1) as -> by congruence.
      by rewrite Hvid.
    + by rewrite get_video_info_run, Hrun.
Qed.

End IdentifierProperties.

(** ** More about the downloader *)

Section DownloadRuns.

Context (rt : Runtime) (w : World).

(** [download_video], step by step. *)
Lemma download_video_full self info st :
  download_video rt w self info st =
  match getattr self "cache_dir" with
  | Raise e => (Raise e, st)
  | Ok cache =>
    let path := format_value rt cache ++ lit "/" ++ title info ++ lit ".mp4" in
    let head_ := [EvInfo (lit "正在下载视频: " ++ title info);
                  EvGet (url info) true] in
    let st1 := {| st_requests := S (st_requests st);
                  st_trace := st_trace st ++ head_;
                  st_dirs := st_dirs st;
                  st_files := st_files st |} in
    match http_get w (st_requests st) (url info) with
    | Raise e => (Raise e, st1)
    | Ok response =>
      match resp_status_error response with
      | Some e => (Raise e, st1)
      | None =>
        match total_size_of rt response with
        | Raise e => (Raise e, st1)
        | Ok total =>
          match open_wb w path with
          | Some e => (Raise e, st1)
          | None =>
            (match resp_stream_error response with
             | Some e => Raise e
             | None => Ok path
             end,
             {| st_requests := S (st_requests st);
                st_trace :=
                  st_trace st ++
                  (head_ ++ [EvOpen path]) ++
                  chunk_events total path (resp_chunks response) 0 ++
                  match resp_stream_error response with
                  | Some _ => []
                  | None => [EvInfo (lit "视频下载完成: " ++ path)]
                  end;
                st_dirs := st_dirs st;
                st_files :=
                  <[path := concat (resp_chunks response)]> (st_files st) |})
          end
        end
      end
    end
  end.
Proof.
  unfold download_video. rewrite M_bind_run. unfold lift at 1.
  destruct (getattr self "cache_dir") as [cache|e]; [|done].
  rewrite M_bind_run. cbn [emit]. rewrite M_bind_run.
  cbn [requests_get st_requests st_trace st_dirs st_files]. cbn zeta.
  rewrite <- !app_assoc. cbn [app].
  destruct (http_get w (st_requests st) (url info)) as [response|e]; [|done].
  rewrite M_bind_run. unfold raise_for_status.
  destruct (resp_status_error response) as [e|]; [done|].
  cbn [mret M_ret]. rewrite M_bind_run. unfold lift at 1.
  destruct (total_size_of rt response) as [total|e]; [|done].
  rewrite M_bind_run. unfold open_file.
  destruct (open_wb w _) as [e|]; [done|].
  rewrite M_bind_run.
  erewrite write_chunks_run by (cbn; apply lookup_insert_eq).
  cbn [st_requests st_trace st_dirs st_files app].
  rewrite insert_insert_eq.
  destruct (resp_stream_error response) as [e|].
  - by rewrite <- !app_assoc, app_nil_r.
  - rewrite M_bind_run. cbn [emit st_requests st_trace st_dirs st_files].
    by rewrite <- !app_assoc.
Qed.

Lemma chunk_events_reported_increasing total path chunks d :
  StronglySorted Z.lt (reported (chunk_events total path chunks d)).
Proof.
  revert d. induction chunks as [|chunk rest IH]; intros d; [constructor|].
  destruct chunk as [|b chunk]; [apply IH|].
  cbn [chunk_events nonempty].
  destruct (0 <? total)%Z; [|apply IH].
  simpl. constructor; [apply IH|].
  apply Forall_forall. intros y Hy.
  apply chunk_events_reported_bounds in Hy. lia.
Qed.

Lemma chunk_events_reported_end total path chunks d :
  reported (chunk_events total path chunks d) <> [] ->
  last (reported (chunk_events total path chunks d)) =
  Some (d + Z.of_nat (length (concat chunks)))%Z.
Proof.
  intros Hne. apply chunk_events_reported_last.
  - destruct (decide (0 < total)%Z) as [|Hno]; [done|].
    by rewrite chunk_events_silent in Hne by lia.
  - intros Hnil.
    destruct (reported (chunk_events total path chunks d)) as [|x l] eqn:Hrep;
      [done|].
    assert (x ∈ reported (chunk_events total path chunks d)) as Hx
      by (rewrite Hrep; left).
    apply chunk_events_reported_bounds in Hx. rewrite Hnil in Hx.
    simpl in Hx. lia.
Qed.

Lemma chunk_events_no_get total path chunks d u s :
  EvGet u s ∉ chunk_events total path chunks d.
Proof.
  revert d. induction chunks as [|chunk rest IH]; intros d.
  - apply not_elem_of_nil.
  - destruct chunk as [|b chunk]; [apply IH|].
    cbn [chunk_events nonempty].
    rewrite not_elem_of_cons, not_elem_of_app. split; [done|]. split; [|apply IH].
    destruct (0 <? total)%Z; [|apply not_elem_of_nil].
    rewrite not_elem_of_cons. split; [done|apply not_elem_of_nil].
Qed.

Lemma chunk_events_no_info total path chunks d msg :
  EvInfo msg ∉ chunk_events total path chunks d.
Proof.
  revert d. induction chunks as [|chunk rest IH]; intros d.
  - apply not_elem_of_nil.
  - destruct chunk as [|b chunk]; [apply IH|].
    cbn [chunk_events nonempty].
    rewrite not_elem_of_cons, not_elem_of_app. split; [done|]. split; [|apply IH].
    destruct (0 <? total)%Z; [|apply not_elem_of_nil].
    rewrite not_elem_of_cons. split; [done|apply not_elem_of_nil].
Qed.

(** The loop writes to its file only, and never an empty chunk. *)
Lemma chunk_events_write total path chunks d p chunk :
  EvWrite p chunk ∈ chunk_events total path chunks d ->
  p = path /\ chunk <> [].
Proof.
  revert d. induction chunks as [|c rest IH]; intros d Hin.
  - by apply elem_of_nil in Hin.
  - destruct c as [|b c]; [by apply (IH d)|].
    cbn [chunk_events nonempty] in Hin.
    apply elem_of_cons in Hin as [Heq|Hin].
    { injection Heq as -> ->. done. }
    apply elem_of_app in Hin as [Hin|Hin]; [|by apply IH in Hin].
    destruct (0 <? total)%Z; [|by apply elem_of_nil in Hin].
    apply list_elem_of_singleton in Hin. discriminate Hin.
Qed.

(** Under a declared size the values reported are the running totals of
    the chunks written. *)
Lemma chunk_events_running_totals total path chunks d :
  (0 < total)%Z ->
  reported (chunk_events total path chunks d) =
  running_totals (filter (fun c => nonempty c = true) chunks) d.
Proof.
  intros Htotal. assert ((0 <? total)%Z = true) as Hyes by lia.
  revert d. induction chunks as [|chunk rest IH]; intros d; [done|].
  destruct chunk as [|b chunk].
  - rewrite filter_cons_False by done. apply IH.
  - rewrite filter_cons_True by done.
    cbn [chunk_events nonempty running_totals]. rewrite Hyes.
    cbn zeta. simpl. f_equal. apply IH.
Qed.

End DownloadRuns.

Section Counting.

Context (rt : Runtime) (w : World).

(** C10: in a download that reaches its loop, that is when the request is
    answered with a success, the declared size is read and the file is
    opened, every value reported is the number of bytes written to the
    file before the report. The file is the only one opened and the only
    one written to; no empty chunk is written; the chunks written are the
    non-empty chunks of the body, each once and in order, and they make up
    the file; under a declared size the values reported are the running
    totals of the chunks written, each chunk counted once with its full
    length. This holds whether or not the transfer breaks after the
    chunks. *)
Theorem progress_counts_bytes_written self info st cache response total :
  getattr self "cache_dir" = Ok cache ->
  http_get w (st_requests st) (url info) = Ok response ->
  resp_status_error response = None ->
  total_size_of rt response = Ok total ->
  open_wb w (format_value rt cache ++ lit "/" ++ title info ++ lit ".mp4") = None ->
  let path := format_value rt cache ++ lit "/" ++ title info ++ lit ".mp4" in
  let run := download_video rt w self info st in
  let evs := events_of (download_video rt w self info) st in
  reports_bytes_written evs /\
  opened evs = [path] /\
  (forall p chunk, EvWrite p chunk ∈ evs -> p = path /\ chunk <> []) /\
  written evs = filter (fun c => nonempty c = true) (resp_chunks response) /\
  st_files run.2 !! path = Some (concat (written evs)) /\
  ((0 < total)%Z -> reported evs = running_totals (written evs) 0) /\
  ((total <= 0)%Z -> reported evs = []).
Proof.
  intros Hcache Hget Hstatus Htotal Hopen. cbn zeta.
  split; [apply (download_video_reports rt w self info st)|].
  pose proof (download_video_full rt w self info st) as Hrun.
  rewrite Hcache in Hrun. cbn zeta in Hrun.
  rewrite Hget, Hstatus, Htotal, Hopen in Hrun.
  rewrite (events_of_eq _ _ _ (f_equal (fun r => st_trace r.2) Hrun)).
  rewrite Hrun. cbn [fst snd st_files].
  set (path := format_value rt cache ++ lit "/" ++ title info ++ lit ".mp4").
  set (tail := match resp_stream_error response with
               | Some _ => []
               | None => [EvInfo (lit "视频下载完成: " ++ path)]
               end).
  assert (opened tail = [] /\ written tail = [] /\ reported tail = [] /\
          forall p chunk, EvWrite p chunk ∉ tail) as (Hot & Hwt & Hrt & Hnt).
  { unfold tail. destruct (resp_stream_error response).
    - repeat split; try done. intros p chunk. apply not_elem_of_nil.
    - repeat split; try done. intros p chunk Hin.
      apply list_elem_of_singleton in Hin. discriminate Hin. }
  assert (written (([EvInfo (lit "正在下载视频: " ++ title info);
                     EvGet (url info) true] ++ [EvOpen path]) ++
                   chunk_events total path (resp_chunks response) 0 ++ tail) =
          filter (fun c => nonempty c = true) (resp_chunks response))
    as Hwritten.
  { rewrite !written_app, chunk_events_written, Hwt.
    cbn [written flat_map app]. by rewrite app_nil_r. }
  split; [|split; [|split; [exact Hwritten|split; [|split]]]].
  - rewrite !opened_app, chunk_events_opened, Hot. done.
  - intros p chunk Hin. cbn [app] in Hin.
    rewrite !elem_of_cons, elem_of_app in Hin.
    destruct Hin as [Hin|[Hin|[Hin|[Hin|Hin]]]]; try discriminate Hin.
    + by apply chunk_events_write in Hin.
    + by apply Hnt in Hin.
  - rewrite Hwritten, concat_nonempty. apply lookup_insert_eq.
  - intros Hpos. rewrite Hwritten.
    rewrite !reported_app, Hrt. cbn [reported flat_map app].
    rewrite !app_nil_r. by apply chunk_events_running_totals.
  - intros Hno. rewrite !reported_app, Hrt. cbn [reported flat_map app].
    rewrite !app_nil_r. by apply chunk_events_silent.
Qed.

End Counting.

Section DownloadProperties.

Context (rt : Runtime) (w : World).

(** X15: when the media request fails, is answered with an error status, carries
    a [content-length] that [int] refuses, or the file cannot be opened,
    [download_video] raises that exception after the opening log line and
    the request, and no file has been created, emptied or written. *)
Theorem failure_before_writing_keeps_files self info st cache e :
  getattr self "cache_dir" = Ok cache ->
  (http_get w (st_requests st) (url info) = Raise e \/
   exists response,
     http_get w (st_requests st) (url info) = Ok response /\
     (resp_status_error response = Some e \/
      (resp_status_error response = None /\
       total_size_of rt response = Raise e) \/
      (resp_status_error response = None /\
       (exists total, total_size_of rt response = Ok total) /\
       open_wb w (format_value rt cache ++ lit "/" ++ title info ++ lit ".mp4")
         = Some e))) ->
  (download_video rt w self info st).1 = Raise e /\
  st_files (download_video rt w self info st).2 = st_files st /\
  st_dirs (download_video rt w self info st).2 = st_dirs st /\
  events_of (download_video rt w self info) st =
    [EvInfo (lit "正在下载视频: " ++ title info); EvGet (url info) true].
Proof.
  intros Hcache Hfail.
  assert (forall st1,
    download_video rt w self info st =
      (Raise e, {| st_requests := S (st_requests st);
                   st_trace := st_trace st ++
                     [EvInfo (lit "正在下载视频: " ++ title info);
                      EvGet (url info) true];
                   st_dirs := st_dirs st;
                   st_files := st_files st |}) ->
    st1 = (download_video rt w self info st).2 ->
    (download_video rt w self info st).1 = Raise e /\
    st_files st1 = st_files st /\ st_dirs st1 = st_dirs st /\
    events_of (download_video rt w self info) st =
      [EvInfo (lit "正在下载视频: " ++ title info); EvGet (url info) true])
    as Hdone.
  { intros st1 Hrun ->. split; [by rewrite Hrun|].
    split; [by rewrite Hrun|]. split; [by rewrite Hrun|].
    apply events_of_eq. by rewrite Hrun. }
  apply Hdone; [|done].
  rewrite download_video_full, Hcache. cbn zeta.
  destruct Hfail as [->|(response & -> & Hfail)]; [done|].
  destruct Hfail as [->|[[-> ->]|(-> & [total ->] & ->)]]; done.
Qed.

(** X16: when the transfer breaks after some chunks, [download_video] raises the
    exception of the transfer; the file stays, holding the chunks received,
    and the closing log line is not written. *)
Theorem broken_transfer_leaves_partial_file self info st cache response total e :
  getattr self "cache_dir" = Ok cache ->
  http_get w (st_requests st) (url info) = Ok response ->
  resp_status_error response = None ->
  total_size_of rt response = Ok total ->
  open_wb w (format_value rt cache ++ lit "/" ++ title info ++ lit ".mp4") = None ->
  resp_stream_error response = Some e ->
  (download_video rt w self info st).1 = Raise e /\
  st_files (download_video rt w self info st).2
    !! (format_value rt cache ++ lit "/" ++ title info ++ lit ".mp4") =
    Some (concat (resp_chunks response)) /\
  written (events_of (download_video rt w self info) st) =
    filter (fun c => nonempty c = true) (resp_chunks response) /\
  (forall msg,
     EvInfo msg ∈ events_of (download_video rt w self info) st ->
     msg = lit "正在下载视频: " ++ title info).
Proof.
  intros Hcache Hget Hstatus Htotal Hopen Hstream.
  pose proof (download_video_full rt w self info st) as Hrun.
  rewrite Hcache in Hrun. cbn zeta in Hrun.
  rewrite Hget, Hstatus, Htotal, Hopen, Hstream in Hrun.
  rewrite (events_of_eq _ _ _ (f_equal (fun r => st_trace r.2) Hrun)).
  rewrite Hrun. cbn [fst snd st_files].
  split; [done|]. split; [apply lookup_insert_eq|]. split.
  - rewrite !written_app, chunk_events_written.
    cbn [written flat_map app]. by rewrite app_nil_r.
  - intros msg Hin. rewrite app_nil_r in Hin.
    apply elem_of_app in Hin as [Hin|Hin].
    + cbn [app] in Hin. rewrite !elem_of_cons, elem_of_nil in Hin.
      destruct Hin as [Hin|[Hin|[Hin|[]]]]; congruence.
    + by apply chunk_events_no_info in Hin.
Qed.

(** X17: whatever happens, [download_video] leaves the directories alone, opens
    at most one file and changes no other, and issues at most one request,
    a streaming one for the address of the media. *)
Theorem download_touches_one_file self info st :
  let run := download_video rt w self info st in
  let evs := events_of (download_video rt w self info) st in
  st_dirs run.2 = st_dirs st /\
  (length (opened evs) <= 1)%nat /\
  (forall q, q ∉ opened evs -> st_files run.2 !! q = st_files st !! q) /\
  (st_requests run.2 <= S (st_requests st))%nat /\
  (forall u s, EvGet u s ∈ evs -> u = url info /\ s = true).
Proof.
  cbn zeta.
  pose proof (download_video_full rt w self info st) as Hrun.
  assert (forall u s,
            EvGet u s ∈ [EvInfo (lit "正在下载视频: " ++ title info);
                         EvGet (url info) true] ->
            u = url info /\ s = true) as Hhead.
  { intros u s Hin. rewrite !elem_of_cons, elem_of_nil in Hin.
    destruct Hin as [Hin|[Hin|[]]]; [discriminate Hin|].
    injection Hin as -> ->. done. }
  destruct (getattr self "cache_dir") as [cache|e].
  2:{ rewrite (events_of_eq _ _ []) by (by rewrite Hrun, app_nil_r).
      rewrite Hrun. cbn [fst snd opened flat_map length].
      split; [done|]. split; [lia|]. split; [done|]. split; [lia|].
      intros u s Hin. by apply elem_of_nil in Hin. }
  cbn zeta in Hrun.
  destruct (http_get w (st_requests st) (url info)) as [response|e].
  2:{ rewrite (events_of_eq _ _ _ (f_equal (fun r => st_trace r.2) Hrun)).
      rewrite Hrun.
      cbn [fst snd st_dirs st_files st_requests opened flat_map app length].
      split; [done|]. split; [lia|]. split; [done|]. split; [lia|].
      exact Hhead. }
  destruct (resp_status_error response) as [e|].
  { rewrite (events_of_eq _ _ _ (f_equal (fun r => st_trace r.2) Hrun)).
    rewrite Hrun.
      cbn [fst snd st_dirs st_files st_requests opened flat_map app length].
      split; [done|]. split; [lia|]. split; [done|]. split; [lia|].
      exact Hhead. }
  destruct (total_size_of rt response) as [total|e].
  2:{ rewrite (events_of_eq _ _ _ (f_equal (fun r => st_trace r.2) Hrun)).
      rewrite Hrun.
      cbn [fst snd st_dirs st_files st_requests opened flat_map app length].
      split; [done|]. split; [lia|]. split; [done|]. split; [lia|].
      exact Hhead. }
  destruct (open_wb w _) as [e|].
  { rewrite (events_of_eq _ _ _ (f_equal (fun r => st_trace r.2) Hrun)).
    rewrite Hrun.
      cbn [fst snd st_dirs st_files st_requests opened flat_map app length].
      split; [done|]. split; [lia|]. split; [done|]. split; [lia|].
      exact Hhead. }
  rewrite (events_of_eq _ _ _ (f_equal (fun r => st_trace r.2) Hrun)).
  rewrite Hrun. cbn [fst snd st_dirs st_files st_requests].
  assert (forall msg, opened (match resp_stream_error response with
                              | Some _ => []
                              | None => [EvInfo msg]
                              end) = []) as Htail
    by (intros msg; by destruct (resp_stream_error response)).
  rewrite !opened_app, chunk_events_opened, Htail. cbn [opened flat_map app].
  split; [done|]. split; [simpl; lia|]. split; [|split; [lia|]].
  - intros q Hq. rewrite lookup_insert_ne; [done|].
    intros <-. apply Hq. left.
  - intros u s Hin. cbn [app] in Hin.
    rewrite !elem_of_cons, elem_of_app in Hin.
    destruct Hin as [Hin|[Hin|[Hin|[Hin|Hin]]]].
    + discriminate Hin.
    + injection Hin as -> ->. done.
    + discriminate Hin.
    + by apply chunk_events_no_get in Hin.
    + destruct (resp_stream_error response).
      * by apply elem_of_nil in Hin.
      * apply list_elem_of_singleton in Hin. discriminate Hin.
Qed.

(** X18: the values reported grow strictly; each is positive and at most the
    number of bytes written in the whole run; and when anything has been
    reported, the last value is that number, whatever size was declared. *)
Theorem progress_grows_to_bytes_written self info st :
  let evs := events_of (download_video rt w self info) st in
  StronglySorted Z.lt (reported evs) /\
  (forall x, x ∈ reported evs -> (0 < x <= bytes_written evs)%Z) /\
  (reported evs <> [] -> last (reported evs) = Some (bytes_written evs)).
Proof.
  cbn zeta.
  destruct (download_video_events rt w self info st) as
    [(_ & Hw & Hr & _)|
     (cache & response & total & head_ & tail_ & _ & _ & _ & Hrest)].
  - rewrite Hr. split; [constructor|]. split; [|done].
    intros x Hx. by apply elem_of_nil in Hx.
  - cbn zeta in Hrest.
    destruct Hrest as (Hevs & _ & Hwh & Hrh & _ & Hwt & Hrt & _).
    assert (bytes_written (events_of (download_video rt w self info) st) =
            Z.of_nat (length (concat (resp_chunks response)))) as ->.
    { unfold bytes_written.
      rewrite Hevs, !written_app, Hwh, Hwt, chunk_events_written.
      cbn [app]. by rewrite app_nil_r, concat_nonempty. }
    rewrite Hevs, !reported_app, Hrh, Hrt, app_nil_r. cbn [app].
    split; [apply chunk_events_reported_increasing|]. split.
    + intros x Hx. apply chunk_events_reported_bounds in Hx. lia.
    + intros Hne. by rewrite chunk_events_reported_end.
Qed.

End DownloadProperties.

(** ** The tools as a whole *)

Section ToolRuns.

Context (rt : Runtime) (w : World).

Lemma after_requests_nil st : after_requests [] st = st.
Proof.
  unfold after_requests. destruct st as [n tr ds fs]. cbn.
  by rewrite Nat.add_0_r, app_nil_r.
Qed.

(** All the resolver does to the state is to add at most two requests, none
    of them streaming. *)
Lemma parse_share_url_requests self st :
  exists evs,
    (parse_share_url rt w self st).2 = after_requests evs st /\
    (length evs <= 2)%nat /\
    Forall (fun ev => exists u, ev = EvGet u false) evs.
Proof.
  rewrite parse_share_url_state.
  assert (forall r, load_router_data rt w self st = (r, st) ->
    exists evs,
      (load_router_data rt w self st).2 = after_requests evs st /\
      (length evs <= 2)%nat /\
      Forall (fun ev => exists u, ev = EvGet u false) evs) as Hnone.
  { intros r ->. exists []. rewrite after_requests_nil.
    split; [done|]. split; [simpl; lia|constructor]. }
  destruct (self !! "share_link") as [link|] eqn:Hattr.
  2:{ eapply Hnone. unfold load_router_data, getattr.
      by rewrite !M_bind_run, Hattr. }
  destruct link as [| | | |text| | |];
    try (eapply Hnone; unfold load_router_data, getattr;
         by rewrite !M_bind_run, Hattr).
  destruct (findall_url text) as [|u urls] eqn:Hfound.
  { eapply Hnone. unfold load_router_data, getattr.
    rewrite !M_bind_run, Hattr. unfold lift. by rewrite Hfound. }
  rewrite (load_router_data_run rt w self st text u urls Hattr Hfound).
  destruct (http_get w (st_requests st) u) as [r1|e].
  2:{ exists [EvGet u false]. split; [done|]. split; [simpl; lia|].
      repeat constructor. by eexists. }
  exists [EvGet u false; EvGet (page_prefix ++ last_segment (resp_url r1)) false].
  split; [|split; [simpl; lia|repeat constructor; by eexists]].
  cbn zeta.
  destruct (http_get w (S (st_requests st)) _) as [r2|e]; [|done].
  destruct (resp_status_error r2); [done|].
  destruct (router_search (resp_text r2)) as [[|c group1]|]; [done| |done].
  by destruct (json_loads rt (str_strip (c :: group1))).
Qed.

(** [download_douyin_video] is the resolution followed by the download. *)
Lemma download_douyin_video_run share_link st :
  download_douyin_video rt w share_link st =
  match parse_share_url rt w (__init__ share_link) st with
  | (Raise e, st1) => (Raise e, st1)
  | (Ok video_info, st1) =>
    match download_video rt w (__init__ share_link) video_info st1 with
    | (Raise e, st2) => (Raise e, st2)
    | (Ok video_path, st2) =>
      (Ok (json_dumps rt (VDict [
         (lit "status", VStr (lit "success"));
         (lit "video_path", VStr video_path)])), st2)
    end
  end.
Proof.
  unfold download_douyin_video. cbn zeta. rewrite M_bind_run.
  destruct (parse_share_url rt w (__init__ share_link) st)
    as [[video_info|e] st1]; [|done].
  rewrite M_bind_run.
  by destruct (download_video rt w (__init__ share_link) video_info st1)
    as [[video_path|e] st2].
Qed.

(** The title of a result is not empty and holds none of the nine
    characters. *)
Lemma make_video_info_title vid data info :
  make_video_info vid data = Ok info ->
  title info <> [] /\ forall c, c ∈ forbidden -> c ∉ title info.
Proof.
  intros Hmake.
  apply make_video_info_Ok in Hmake as (raw & d & _ & _ & ->). cbn [title].
  split.
  - intros Hnil. apply (f_equal length) in Hnil.
    rewrite sub_illegal_length in Hnil.
    destruct (str_strip d) as [|c r]; [|done].
    rewrite length_app in Hnil. vm_compute in Hnil. lia.
  - intros c Hc. by apply sub_illegal_clean.
Qed.

End ToolRuns.

Section ToolProperties.

Context (rt : Runtime) (w : World).

(** X12: the two link tools always return, and all they do to the state is what
    the resolver does: at most two requests, none of them streaming; no log
    line, no progress report, no file or directory touched. *)
Theorem link_tools_only_resolve share_link st :
  exists evs,
    (length evs <= 2)%nat /\
    Forall (fun ev => exists u, ev = EvGet u false) evs /\
    (exists out, get_douyin_download_link rt w share_link st =
                   (Ok out, after_requests evs st)) /\
    (exists out, parse_douyin_video_info rt w share_link st =
                   (Ok out, after_requests evs st)).
Proof.
  destruct (parse_share_url_requests rt w (__init__ share_link) st)
    as (evs & Hstate & Hlen & Hgets).
  exists evs. split; [done|]. split; [done|].
  unfold get_douyin_download_link, parse_douyin_video_info, try_except.
  cbn zeta. rewrite !M_bind_run.
  destruct (parse_share_url rt w (__init__ share_link) st) as [[info|e] st1];
    cbn [snd] in Hstate; subst st1; split; by eexists.
Qed.

(** X19: every file [download_douyin_video] opens lies right inside the cache
    directory: its path is [../tmp/], a name that is not empty and holds
    none of the nine characters, slash and backslash among them, and
    [.mp4]. *)
Theorem download_stays_in_cache_dir share_link st p :
  p ∈ opened (events_of (download_douyin_video rt w share_link) st) ->
  exists name,
    p = lit "../tmp/" ++ name ++ lit ".mp4" /\
    name <> [] /\
    forall c, c ∈ forbidden -> c ∉ name.
Proof.
  intros Hin.
  pose proof (download_douyin_video_run rt w share_link st) as Hrun.
  destruct (parse_share_url rt w (__init__ share_link) st)
    as [[info|e] st1] eqn:Hparse.
  2:{ pose proof (Quiet_parse_share_url rt w _ _ _ _ Hparse)
        as (evs1 & Ht1 & Hg1 & _).
      rewrite (events_of_eq _ _ evs1) in Hin by (by rewrite Hrun).
      apply gets_only in Hg1 as (Ho & _). rewrite Ho in Hin.
      by apply elem_of_nil in Hin. }
  pose proof (Quiet_parse_share_url rt w _ _ _ _ Hparse)
    as (evs1 & Ht1 & Hg1 & _).
  apply gets_only in Hg1 as (Ho1 & _).
  apply parse_share_url_Ok in Hparse as (vid & data & _ & Hmake).
  apply make_video_info_title in Hmake as [Hne Hclean].
  destruct (download_video rt w (__init__ share_link) info st1)
    as [r st2] eqn:Hdl.
  pose proof (download_video_cases rt w _ _ _ _ _ Hdl) as (evs2 & Ht2 & Hcases).
  assert (st_trace (download_douyin_video rt w share_link st).2 =
          st_trace st ++ evs1 ++ evs2) as Htrace.
  { rewrite Hrun. rewrite app_assoc, <- Ht1, <- Ht2. by destruct r. }
  rewrite (events_of_eq _ _ _ Htrace), opened_app, Ho1 in Hin.
  cbn [app] in Hin.
  destruct Hcases as [(Ho2 & _)|(cache & response & total & Hcache & _ & _ & _ & Hevs & _)].
  { rewrite Ho2 in Hin. by apply elem_of_nil in Hin. }
  assert (cache = VStr (lit "../tmp")) as ->.
  { unfold getattr, __init__ in Hcache.
    rewrite lookup_insert_ne, lookup_insert_eq in Hcache by done.
    by injection Hcache. }
  cbn zeta in Hevs. rewrite Hevs in Hin.
  rewrite !opened_app, chunk_events_opened in Hin.
  assert (forall msg, opened (match resp_stream_error response with
                              | Some _ => []
                              | None => [EvInfo msg]
                              end) = []) as Htail
    by (intros msg; by destruct (resp_stream_error response)).
  rewrite Htail in Hin. cbn [opened flat_map app format_value] in Hin.
  apply list_elem_of_singleton in Hin as ->.
  exists (title info). split; [|done].
  eval_lit. reflexivity.
Qed.

End ToolProperties.

Section PayloadProperties.

(** X7: when [loaderData] is there but is not a dictionary the resolver never
    gets a record: the membership test or the subscript raises
    [TypeError], or, for a list or a string that holds neither key, the
    resolver raises its own exception. *)
Theorem loader_must_be_a_dictionary json_data loader :
  getitem json_data (lit "loaderData") = Ok loader ->
  (forall fields, loader <> VDict fields) ->
  exists e,
    select_video_info json_data = Raise e /\
    (class_of e = TypeError \/ e = Raised Exception_ MSG_NO_RECORD).
Proof.
  intros Hloader Hnot. unfold select_video_info. rewrite Hloader.
  cbn [mbind result_bind].
  destruct loader as [|b|z|x|s|items|fields|p];
    try (eexists; split; [reflexivity|by left]).
  - cbn [py_in mbind result_bind].
    destruct (str_contains video_id_page_key s).
    { eexists. split; [reflexivity|by left]. }
    cbn [py_in mbind result_bind].
    destruct (str_contains note_id_page_key s).
    { eexists. split; [reflexivity|by left]. }
    eexists. split; [reflexivity|by right].
  - cbn [py_in mbind result_bind].
    destruct (existsb _ items).
    { eexists. split; [reflexivity|by left]. }
    cbn [py_in mbind result_bind].
    destruct (existsb _ items).
    { eexists. split; [reflexivity|by left]. }
    eexists. split; [reflexivity|by right].
  - by destruct (Hnot fields).
Qed.

End PayloadProperties.

(** ** More concrete runs *)

Section MoreConcrete.

Import Demo.

Lemma links_found_are_well_formed_witness :
  (exists body, body <> [] /\
     (lit "https://v.douyin.com/ABCDEFG/" = lit "http://" ++ body \/
      lit "https://v.douyin.com/ABCDEFG/" = lit "https://" ++ body)) /\
  Forall (fun c => url_char c = true) (lit "https://v.douyin.com/ABCDEFG/") /\
  Forall (fun c => 33 <= c <= 122) (lit "https://v.douyin.com/ABCDEFG/") /\
  exists pre post, share_text = pre ++ lit "https://v.douyin.com/ABCDEFG/" ++ post.
Proof.
  apply (links_found_are_well_formed share_text (lit "https://v.douyin.com/ABCDEFG/")).
  vm_compute. left.
Defined.

Lemma identifier_is_one_segment_witness :
  (ord "/" ∉ video_id info) /\ (ord "?" ∉ video_id info) /\
  exists u,
    st_trace resolved =
    st_trace start ++ [EvGet u false; EvGet (page_prefix ++ video_id info) false].
Proof.
  apply (identifier_is_one_segment rt declared (__init__ share_text) start
           info resolved).
  vm_compute. reflexivity.
Defined.

Lemma identifier_from_final_address_witness :
  (parse_share_url rt declared (__init__ share_text) start).2 =
    after_requests [EvGet (lit "https://v.douyin.com/ABCDEFG/") false;
                    EvGet (page_prefix ++ post_id) false] start /\
  (forall info st',
     parse_share_url rt declared (__init__ share_text) start = (Ok info, st') ->
     video_id info = post_id).
Proof.
  apply (identifier_from_final_address rt declared (__init__ share_text) start
           share_text (lit "https://v.douyin.com/ABCDEFG/") []
           (reply (lit "https://www.iesdouyin.com/share/video/7123456789012345678/?region=CN&from=web") [] None [])
           (lit "https://www.iesdouyin.com/share/video") post_id
           (lit "?region=CN&from=web") 1).
  - vm_compute. reflexivity.
  - vm_compute. reflexivity.
  - vm_compute. reflexivity.
  - vm_compute. reflexivity.
  - vm_compute. discriminate.
  - apply (bool_decide_unpack _). vm_compute. reflexivity.
  - apply (bool_decide_unpack _). vm_compute. reflexivity.
  - apply (bool_decide_unpack _). vm_compute. reflexivity.
  - right. eexists. vm_compute. reflexivity.
Defined.

Lemma resolver_requests_witness :
  match http_get declared (st_requests start)
          (lit "https://v.douyin.com/ABCDEFG/") with
  | Raise e =>
    parse_share_url rt declared (__init__ share_text) start =
    (Raise e,
     after_requests [EvGet (lit "https://v.douyin.com/ABCDEFG/") false] start)
  | Ok r1 =>
    (parse_share_url rt declared (__init__ share_text) start).2 =
    after_requests
      [EvGet (lit "https://v.douyin.com/ABCDEFG/") false;
       EvGet (page_prefix ++ last_segment (resp_url r1)) false] start
  end.
Proof.
  apply (resolver_requests rt declared (__init__ share_text) start share_text
           (lit "https://v.douyin.com/ABCDEFG/") []).
  - vm_compute. reflexivity.
  - vm_compute. reflexivity.
Defined.

Lemma empty_item_list_is_index_error_witness :
  parse_share_url rt_empty emptied (__init__ share_text) start =
    (Raise (Faulted (OutOfRange (VList []))), resolved) /\
  class_of (Faulted (OutOfRange (VList []))) = IndexError /\
  parse_douyin_video_info rt_empty emptied share_text start =
    (Ok (json_dumps rt_empty (VDict [
       (lit "status", VStr (lit "error"));
       (lit "error", VStr (fault_str rt_empty (OutOfRange (VList []))))])),
     resolved).
Proof.
  apply (empty_item_list_is_index_error rt_empty emptied share_text start
           post_id empty_payload resolved
           (VDict [(lit "item_list", VList [])])).
  - vm_compute. reflexivity.
  - vm_compute. reflexivity.
  - vm_compute. reflexivity.
Defined.

Lemma url_changes_iff_playwm_witness :
  exists vid data raw,
    locate_record rt declared (__init__ share_text) start =
      (Ok (vid, data), resolved) /\
    play_url data = Ok (VStr raw) /\
    (url info = raw <-> str_contains (lit "playwm") raw = false) /\
    (length (url info) <= length raw)%nat.
Proof.
  apply (url_changes_iff_playwm rt declared (__init__ share_text) start
           info resolved).
  vm_compute. reflexivity.
Defined.

Lemma title_shape_witness :
  title info <> [] /\
  exists vid fields,
    locate_record rt declared (__init__ share_text) start =
      (Ok (vid, VDict fields), resolved) /\
    match dict_get (lit "desc") fields with
    | None => title info = sub_illegal (lit "douyin_" ++ vid)
    | Some (VStr d) =>
      if forallb py_isspace d
      then title info = sub_illegal (lit "douyin_" ++ vid)
      else title info = sub_illegal (str_strip d) /\
           length (title info) = length (str_strip d) /\
           forall c, head (title info) = Some c \/ last (title info) = Some c ->
                     py_isspace c = false
    | Some _ => False
    end.
Proof.
  apply (title_shape rt declared (__init__ share_text) start info resolved).
  vm_compute. reflexivity.
Defined.

(** A [desc] that is not blank and still gives the title of the default:
    it spells the default, between two spaces. *)
Example desc_may_spell_the_default :
  let d := lit " douyin_7123456789012345678 " in
  forallb py_isspace d = false /\
  make_video_info post_id (record raw_url [(lit "desc", VStr d)]) =
    Ok blank_info /\
  make_video_info post_id (record raw_url [(lit "desc", VStr (lit "  "))]) =
    Ok blank_info.
Proof. repeat split; vm_compute; reflexivity. Qed.

Lemma resource_round_trip_witness :
  (get_video_info rt direct post_id start).2 =
    after_requests [EvGet (page_prefix ++ post_id) false;
                    EvGet (page_prefix ++ post_id) false] start /\
  (forall info st',
     parse_share_url rt direct (__init__ (page_prefix ++ post_id)) start =
       (Ok info, st') ->
     video_id info = post_id /\
     (get_video_info rt direct post_id start).1 =
       Ok (json_dumps rt (video_info_dict info))).
Proof.
  apply (resource_round_trip rt direct post_id [] 0 start
           (reply (page_prefix ++ post_id) (page video_text) None [])).
  - vm_compute. discriminate.
  - vm_compute. repeat constructor.
  - apply (bool_decide_unpack _). vm_compute. reflexivity.
  - apply (bool_decide_unpack _). vm_compute. reflexivity.
  - vm_compute. reflexivity.
  - vm_compute. reflexivity.
  - by left.
Defined.

Example resource_round_trip_succeeds :
  (get_video_info rt direct post_id start).1 =
  Ok (dumps (video_info_dict info)).
Proof. vm_compute. reflexivity. Qed.

Lemma failure_before_writing_keeps_files_witness :
  (download_video rt refused (__init__ share_text) info resolved).1 =
    Raise forbidden_status /\
  st_files (download_video rt refused (__init__ share_text) info resolved).2 =
    st_files resolved /\
  st_dirs (download_video rt refused (__init__ share_text) info resolved).2 =
    st_dirs resolved /\
  events_of (download_video rt refused (__init__ share_text) info) resolved =
    [EvInfo (lit "正在下载视频: " ++ title info); EvGet (url info) true].
Proof.
  apply (failure_before_writing_keeps_files rt refused (__init__ share_text)
           info resolved (VStr (lit "../tmp")) forbidden_status).
  - vm_compute. reflexivity.
  - right. exists (with_status (Some forbidden_status)
                     (media (Some (lit "5")) [abc; []; de])).
    split; [vm_compute; reflexivity|]. left. reflexivity.
Defined.

Lemma broken_transfer_leaves_partial_file_witness :
  (download_video rt cut (__init__ share_text) info resolved).1 =
    Raise connection_broken /\
  st_files (download_video rt cut (__init__ share_text) info resolved).2
    !! (format_value rt (VStr (lit "../tmp")) ++ lit "/" ++ title info ++ lit ".mp4") =
    Some (concat (resp_chunks cut_media)) /\
  written (events_of (download_video rt cut (__init__ share_text) info) resolved) =
    filter (fun c => nonempty c = true) (resp_chunks cut_media) /\
  (forall msg,
     EvInfo msg ∈ events_of (download_video rt cut (__init__ share_text) info)
                    resolved ->
     msg = lit "正在下载视频: " ++ title info).
Proof.
  apply (broken_transfer_leaves_partial_file rt cut (__init__ share_text)
           info resolved (VStr (lit "../tmp")) cut_media 5%Z connection_broken).
  - vm_compute. reflexivity.
  - vm_compute. reflexivity.
  - reflexivity.
  - vm_compute. reflexivity.
  - reflexivity.
  - reflexivity.
Defined.

(** The download of the scenario: the body comes as [abc], an empty chunk
    and [de] under a declared size of five. *)
Lemma progress_counts_bytes_written_witness :
  let path :=
    format_value rt (VStr (lit "../tmp")) ++ lit "/" ++ title info ++ lit ".mp4" in
  let run := download_video rt declared (__init__ share_text) info resolved in
  let evs :=
    events_of (download_video rt declared (__init__ share_text) info) resolved in
  reports_bytes_written evs /\
  opened evs = [path] /\
  (forall p chunk, EvWrite p chunk ∈ evs -> p = path /\ chunk <> []) /\
  written evs =
    filter (fun c => nonempty c = true)
      (resp_chunks (media (Some (lit "5")) [abc; []; de])) /\
  st_files run.2 !! path = Some (concat (written evs)) /\
  ((0 < 5)%Z -> reported evs = running_totals (written evs) 0) /\
  ((5 <= 0)%Z -> reported evs = []).
Proof.
  apply (progress_counts_bytes_written rt declared (__init__ share_text) info
           resolved (VStr (lit "../tmp")) (media (Some (lit "5")) [abc; []; de])
           5%Z).
  - vm_compute. reflexivity.
  - vm_compute. reflexivity.
  - reflexivity.
  - vm_compute. reflexivity.
  - reflexivity.
Defined.

(** What that run wrote and reported: [abc] then [de], three then five. *)
Example scenario_counting :
  let evs :=
    events_of (download_video rt declared (__init__ share_text) info) resolved in
  written evs = [abc; de] /\ reported evs = [3; 5]%Z /\
  opened evs = [file_path].
Proof. repeat split; vm_compute; reflexivity. Qed.

Lemma download_stays_in_cache_dir_witness :
  exists name,
    file_path = lit "../tmp/" ++ name ++ lit ".mp4" /\
    name <> [] /\
    forall c, c ∈ forbidden -> c ∉ name.
Proof.
  apply (download_stays_in_cache_dir rt declared share_text start file_path).
  vm_compute. left.
Defined.

Lemma loader_must_be_a_dictionary_witness :
  exists e,
    select_video_info listed_payload = Raise e /\
    (class_of e = TypeError \/ e = Raised Exception_ MSG_NO_RECORD).
Proof.
  apply (loader_must_be_a_dictionary listed_payload
           (VList [VStr video_id_page_key])).
  - vm_compute. reflexivity.
  - intros fields. discriminate.
Defined.

End MoreConcrete.

(** ** The finalizer on any object, and a download that succeeds *)

Section LastProperties.

Context (rt : Runtime) (w : World).

Lemma str_eqb_refl (s : str) : str_eqb s s = true.
Proof. induction s as [|c s IH]; [done|]. simpl. by rewrite char_eqb_refl. Qed.

Lemma under_refl (p : str) : under p p = true.
Proof. unfold under. by rewrite str_eqb_refl. Qed.



(** X20: when [download_douyin_video] returns, the resolution gave a result, the
    answer names the file [../tmp/], the title and [.mp4], that file holds
    the whole body of the media answer, and three requests have been made. *)
Theorem download_success_names_the_file share_link st out st' :
  download_douyin_video rt w share_link st = (Ok out, st') ->
  exists info st1 response,
    parse_share_url rt w (__init__ share_link) st = (Ok info, st1) /\
    http_get w (st_requests st1) (url info) = Ok response /\
    out = json_dumps rt (VDict [
            (lit "status", VStr (lit "success"));
            (lit "video_path",
             VStr (lit "../tmp" ++ lit "/" ++ title info ++ lit ".mp4"))]) /\
    st_files st' !! (lit "../tmp" ++ lit "/" ++ title info ++ lit ".mp4") =
      Some (concat (resp_chunks response)) /\
    st_requests st' = (st_requests st + 3)%nat.
Proof.
  rewrite download_douyin_video_run.
  destruct (parse_share_url rt w (__init__ share_link) st)
    as [[info|e] st1] eqn:Hparse; [|done].
  pose proof (parse_share_url_video_id rt w _ _ _ _ Hparse)
    as (text & u & urls & r1 & _ & _ & _ & _ & Hst1).
  rewrite (download_video_full rt w (__init__ share_link) info st1).
  assert (getattr (__init__ share_link) "cache_dir" = Ok (VStr (lit "../tmp")))
    as ->.
  { unfold getattr, __init__.
    by rewrite lookup_insert_ne, lookup_insert_eq. }
  cbn zeta. cbn [format_value].
  destruct (http_get w (st_requests st1) (url info)) as [response|e] eqn:Hget;
    [|done].
  destruct (resp_status_error response); [done|].
  destruct (total_size_of rt response); [|done].
  destruct (open_wb w _); [done|].
  destruct (resp_stream_error response); [done|].
  intros Heq. injection Heq as Hout Hst'. exists info, st1, response.
  split; [done|]. split; [done|]. split; [done|].
  rewrite <- Hst'. cbn [st_files st_requests].
  split; [apply lookup_insert_eq|].
  rewrite Hst1. cbn [after_requests st_requests length]. lia.
Qed.

End LastProperties.

Section LastConcrete.

Import Demo.

(** With a [temp_dir] the finalizer does remove: after the download, the
    cache directory and the file in it are gone. *)
Example scenario_finalizer_with_temp_dir :
  let st := (download_douyin_video rt declared share_text start).2 in
  st_files st !! file_path = Some (abc ++ de) /\
  st_files (__del__ scratch_object st).2 !! file_path = None /\
  st_dirs (__del__ scratch_object st).2 = ∅.
Proof. repeat split; vm_compute; reflexivity. Qed.

Lemma download_success_names_the_file_witness :
  exists info st1 response,
    parse_share_url rt declared (__init__ share_text) start = (Ok info, st1) /\
    http_get declared (st_requests st1) (url info) = Ok response /\
    dumps (VDict [(lit "status", VStr (lit "success"));
                  (lit "video_path", VStr file_path)]) =
      json_dumps rt (VDict [
        (lit "status", VStr (lit "success"));
        (lit "video_path",
         VStr (lit "../tmp" ++ lit "/" ++ title info ++ lit ".mp4"))]) /\
    st_files (download_douyin_video rt declared share_text start).2
      !! (lit "../tmp" ++ lit "/" ++ title info ++ lit ".mp4") =
      Some (concat (resp_chunks response)) /\
    st_requests (download_douyin_video rt declared share_text start).2 =
      (st_requests start + 3)%nat.
Proof.
  apply (download_success_names_the_file rt declared share_text start).
  vm_compute. reflexivity.
Defined.

End LastConcrete.
